(** * Figure 24: gender of other external team members across cohorts

    A shallow embedding of [24_other_gender_external_cohort_bar_person.py]:
    the three loaded tables are lists of records, the data-frame operations
    the script calls are list functions, the operations that can raise run in
    the error monad [sum exn], and the accumulator [cum_sums] that [get_vals]
    appends to is the state of a state monad over it.

    Conventions of the model.
    - A text cell is [option string]; [None] is the missing value (NaN).
    - Identifiers are [string]; a missing identifier behaves as one more key
      value in [drop_duplicates] and [merge], so it needs no case of its own.
    - A cohort is an integer or missing; fractional cohorts are outside the
      model.
    - [round(a * 100 / b)] is taken on the exact quotient.  The script
      divides in double precision, which rounds to the same integer whenever
      [b < 2^46].
    - The joins list their rows in the order of the left table.  The script
      only counts the rows of the working table and sorts the values it
      enumerates, so nothing it draws depends on that order.
    - A [figure] is what the drawing calls receive; a failure inside the
      plotting library is outside the model.  For an empty working table
      the script asks for a figure of width 0, which the model does not
      see: there a returned [figure] says what was computed, not that a
      file was written. *)

From Stdlib Require Import ZArith List String Ascii Bool Lia.
From Stdlib Require Import Permutation Sorted DecimalString.
From ExtLib Require Import Structures.Monad Structures.MonadState.
From ExtLib Require Import Structures.MonadExc Structures.MonadTrans.
From ExtLib Require Import Data.Monads.StateMonad Data.Monads.EitherMonad.
Import ListNotations.
Import MonadNotation.
Local Open Scope string_scope.
Local Open Scope Z_scope.
Local Open Scope monad_scope.

#[local] Existing Instance Monad_stateT.

(** ** Python and pandas operations used by the script *)

(** The exceptions the script can end with. *)
Inductive exn : Type :=
| TypeError
| ValueError
| KeyError
| ZeroDivisionError.

(** A computation that returns or raises. *)
Definition py : Type -> Type := sum exn.

#[global] Instance Monad_py : Monad py := Monad_either exn.
#[global] Instance Exception_py : MonadExc exn py := Exception_either exn.

(** A computation that also reads and appends to [cum_sums]. *)
Definition py_st : Type -> Type := stateT (list Z) py.

(** Python's [str()]. *)
Class Str (A : Type) : Type := str : A -> string.

#[global] Instance Str_Z : Str Z :=
  fun z => NilZero.string_of_int (Z.to_int z).

(** A missing value is the float NaN, which prints as [nan]. *)
#[global] Instance Str_cell : Str (option string) :=
  fun c => match c with Some s => s | None => "nan" end.

Section Frames.
Context {A : Type}.

(** [df[mask]]: the rows whose mask entry is true. *)
Definition loc_mask (df : list A) (mask : list bool) : list A :=
  map fst (filter snd (combine df mask)).

(** [m1 & m2] on boolean series. *)
Definition mask_and (m1 m2 : list bool) : list bool :=
  map (fun p => andb (fst p) (snd p)) (combine m1 m2).

(** [~ s]: defined on a boolean series, [TypeError] as soon as one entry
    is missing. *)
Fixpoint invert (s : list (option bool)) : py (list bool) :=
  match s with
  | [] => ret []
  | Some b :: rest => m <- invert rest ;; ret (negb b :: m)
  | None :: _ => raise TypeError
  end.

Context {K : Type} (K_dec : forall x y : K, {x = y} + {x <> y}).

(** [Series.unique()]: the distinct values, in order of first appearance. *)
Fixpoint unique_from (seen : list K) (s : list K) : list K :=
  match s with
  | [] => []
  | x :: rest =>
      if in_dec K_dec x seen then unique_from seen rest
      else x :: unique_from (x :: seen) rest
  end.

Definition unique (s : list K) : list K := unique_from [] s.

(** [df.drop_duplicates(cols)]: a row is kept unless an earlier row has
    the same values in [cols]; [key] reads those values. *)
Fixpoint drop_duplicates_from (key : A -> K) (seen : list K) (df : list A)
  : list A :=
  match df with
  | [] => []
  | r :: rest =>
      if in_dec K_dec (key r) seen then drop_duplicates_from key seen rest
      else r :: drop_duplicates_from key (key r :: seen) rest
  end.

Definition drop_duplicates (key : A -> K) (df : list A) : list A :=
  drop_duplicates_from key [] df.
End Frames.

Section Sorting.
Context {A : Type} (leb : A -> A -> bool).

Fixpoint insert_sorted (x : A) (l : list A) : list A :=
  match l with
  | [] => [x]
  | y :: rest => if leb x y then x :: l else y :: insert_sorted x rest
  end.

(** Python's [sorted()]: the ascending rearrangement of the list. *)
Fixpoint sorted (l : list A) : list A :=
  match l with
  | [] => []
  | x :: rest => insert_sorted x (sorted rest)
  end.
End Sorting.

(** [elem == v] on a cell; a missing cell equals no string. *)
Definition cell_eqb (c : option string) (v : string) : bool :=
  match c with
  | Some s => String.eqb s v
  | None => false
  end.

(** [series == v] and [series != v]. *)
Definition series_eq (s : list (option string)) (v : string) : list bool :=
  map (fun c => cell_eqb c v) s.

Definition series_ne (s : list (option string)) (v : string) : list bool :=
  map (fun c => negb (cell_eqb c v)) s.

(** [pat in s] for a pattern without regular-expression operators. *)
Fixpoint contains (pat s : string) : bool :=
  String.prefix pat s ||
  match s with
  | EmptyString => false
  | String _ rest => contains pat rest
  end.

(** [series.str.contains(pat)]: missing where the cell is missing. *)
Definition str_contains (s : list (option string)) (pat : string)
  : list (option bool) :=
  map (option_map (contains pat)) s.

(** [round(n / d)] on the exact quotient, for [d <> 0]: the nearest integer,
    a tie going to the even one. *)
Definition round_half_even (n d : Z) : Z :=
  let q := n / d in
  let r := n mod d in
  match Z.abs (2 * r) ?= Z.abs d with
  | Lt => q
  | Gt => q + 1
  | Eq => if Z.even q then q else q + 1
  end.

(** [round(n / d)]: true division raises on a zero divisor. *)
Definition round_div (n d : Z) : py Z :=
  if d =? 0 then raise ZeroDivisionError else ret (round_half_even n d).

(** ** The loaded tables *)

(** [individual_awards.csv]: one row per participation record. *)
Module IndividualAwards.
Record row : Type := mk {
  person_id : string;
  award_id : string;
  award_type : option string;
  award_role : option string;
  award_start_year : Z
}.
End IndividualAwards.

(** [awards.csv], reduced to its two columns on line 31. *)
Module Awards.
Record row : Type := mk {
  award_id : string;
  cohort : option Z
}.
End Awards.

(** [individual_demographics.csv], reduced to its two columns on line 32. *)
Module Dems.
Record row : Type := mk {
  person_id : string;
  gender : option string
}.
End Dems.

(** ** Configuration *)

Definition level : string := "person".
Definition MIN : Z := 1.
Definition MAX : Z := 9.

(** ** Dataset *)

(** Line 42: keep the rows whose award type is "it". *)
Definition filter_award_type (df_awards_i : list IndividualAwards.row)
  : list IndividualAwards.row :=
  loc_mask df_awards_i
    (series_eq (map IndividualAwards.award_type df_awards_i) "it").

(** Lines 45-47: drop the investigator roles and the internal ones. *)
Definition filter_award_role (df_awards_i : list IndividualAwards.row)
  : py (list IndividualAwards.row) :=
  let award_role := map IndividualAwards.award_role df_awards_i in
  not_internal <- invert (str_contains award_role "internal") ;;
  ret (loc_mask df_awards_i
         (mask_and (mask_and (mask_and (mask_and
            (series_ne award_role "pi")
            (series_ne award_role "co-pi"))
            (series_ne award_role "former pi"))
            (series_ne award_role "former co-pi"))
            not_internal)).

(** Line 50: the columns that identify a duplicate, read off a row. *)
Definition level_cols (lvl : string) (r : IndividualAwards.row)
  : list string :=
  if String.eqb lvl "person" then [IndividualAwards.person_id r]
  else [IndividualAwards.person_id r; IndividualAwards.award_id r].

(** Lines 42-51: [df_awards_i] as it enters the joins. *)
Definition filter_awards_i (lvl : string)
  (df_awards_i : list IndividualAwards.row) : py (list IndividualAwards.row) :=
  df <- filter_award_role (filter_award_type df_awards_i) ;;
  ret (drop_duplicates (list_eq_dec string_dec) (level_cols lvl) df).

(** Line 55: the four columns [df_master] starts from. *)
Module Selected.
Record row : Type := mk {
  person_id : string;
  award_id : string;
  award_start_year : Z;
  award_role : option string
}.
End Selected.

(** [df_master] with the cohort column: nullable after the left join of
    line 58, an integer after the cast of line 59. *)
Module Joined.
Record row (C : Type) : Type := mk {
  base : Selected.row;
  cohort : C
}.
Arguments mk {C} _ _.
Arguments base {C} _.
Arguments cohort {C} _.
End Joined.

(** The working table: [df_master] after line 65. *)
Module Master.
Record row : Type := mk {
  base : Selected.row;
  cohort : Z;
  gender : option string
}.
Definition person_id (r : row) : string := Selected.person_id (base r).
Definition award_id (r : row) : string := Selected.award_id (base r).
End Master.

Definition select_columns (r : IndividualAwards.row) : Selected.row :=
  Selected.mk (IndividualAwards.person_id r) (IndividualAwards.award_id r)
    (IndividualAwards.award_start_year r) (IndividualAwards.award_role r).

(** The award records a row of [df_master] joins with. *)
Definition awards_of (df_awards : list Awards.row) (l : Selected.row)
  : list Awards.row :=
  filter (fun a => String.eqb (Awards.award_id a) (Selected.award_id l))
    df_awards.

(** Line 58: [pd.merge(df_master, df_awards, on='award_id', how='left')].
    A row without a matching award stays, with a missing cohort. *)
Definition merge_awards (df_master : list Selected.row)
  (df_awards : list Awards.row) : list (Joined.row (option Z)) :=
  flat_map
    (fun l =>
       match awards_of df_awards l with
       | [] => [Joined.mk l None]
       | matches => map (fun a => Joined.mk l (Awards.cohort a)) matches
       end)
    df_master.

(** Line 59: [astype({'cohort': int})] raises on a missing cohort. *)
Fixpoint astype_int (df : list (Joined.row (option Z)))
  : py (list (Joined.row Z)) :=
  match df with
  | [] => ret []
  | r :: rest =>
      match Joined.cohort r with
      | None => raise ValueError
      | Some c =>
          rest' <- astype_int rest ;;
          ret (Joined.mk (Joined.base r) c :: rest')
      end
  end.

(** Line 62: keep the cohorts from [MIN] to [MAX]. *)
Definition filter_cohort (df_master : list (Joined.row Z))
  : list (Joined.row Z) :=
  let cohort := map Joined.cohort df_master in
  loc_mask df_master
    (mask_and (map (fun c => c >=? MIN) cohort)
              (map (fun c => c <=? MAX) cohort)).

(** The demographic records a row of [df_master] joins with. *)
Definition dems_of (df_dems : list Dems.row) (l : Joined.row Z)
  : list Dems.row :=
  filter
    (fun d => String.eqb (Dems.person_id d)
                (Selected.person_id (Joined.base l)))
    df_dems.

(** Line 65: [pd.merge(df_master, df_dems, on='person_id')], an inner join. *)
Definition merge_dems (df_master : list (Joined.row Z))
  (df_dems : list Dems.row) : list Master.row :=
  flat_map
    (fun l =>
       map (fun d => Master.mk (Joined.base l) (Joined.cohort l)
                       (Dems.gender d))
         (dems_of df_dems l))
    df_master.

(** Lines 42-65: the working table, or the exception that ends the run. *)
Definition dataset (lvl : string) (df_awards_i : list IndividualAwards.row)
  (df_awards : list Awards.row) (df_dems : list Dems.row)
  : py (list Master.row) :=
  df_awards_i <- filter_awards_i lvl df_awards_i ;;
  let df_master := map select_columns df_awards_i in
  let df_master := merge_awards df_master df_awards in
  df_master <- astype_int df_master ;;
  let df_master := filter_cohort df_master in
  ret (merge_dems df_master df_dems).

(** ** Visualization *)

(** The summary table [df_q]; [cohort] becomes its index on line 97. *)
Module Q.
Record row : Type := mk {
  cohort : Z;
  men : Z;
  women : Z
}.
End Q.

(** Line 70: the columns [df_q] is created with. *)
Definition df_q_columns : list string := ["cohort"; "men"; "women"].

(** Lines 73-74. *)
Definition get_q (df_master : list Master.row) (cohort : Z) (gender : string)
  : Z :=
  Z.of_nat
    (List.length
       (loc_mask df_master
          (mask_and
             (map (fun c => c =? cohort) (map Master.cohort df_master))
             (series_eq (map Master.gender df_master) gender)))).

(** Lines 77-78. *)
Definition no_nans {A : Type} `{Str A} (elem : A) : bool :=
  negb (String.eqb (str elem) "nan").

(** Lines 81-82. *)
Definition cohorts (df_master : list Master.row) : list Z :=
  sorted Z.leb
    (filter no_nans (unique Z.eq_dec (map Master.cohort df_master))).

Definition cell_dec (x y : option string) : {x = y} + {x <> y}.
Proof. decide equality. apply string_dec. Defined.

(** The strings among cells; after [no_nans] no other cell is left. *)
Definition texts (s : list (option string)) : list string :=
  flat_map (fun c => match c with Some t => [t] | None => [] end) s.

(** Lines 85-86. *)
Definition genders (df_master : list Master.row) : list string :=
  sorted String.leb
    (texts (filter no_nans (unique cell_dec (map Master.gender df_master)))).

(** Lines 89-91: one appended row per cohort. *)
Definition append_q (df_master : list Master.row) (df_q : list Q.row)
  (cohort : Z) : list Q.row :=
  (df_q ++ [Q.mk cohort (get_q df_master cohort "man")
                        (get_q df_master cohort "woman")])%list.

Definition build_df_q (df_master : list Master.row) (cohorts : list Z)
  : list Q.row :=
  fold_left (append_q df_master) cohorts [].

(** [df_q.loc[cohort, col]]: [KeyError] when the index lacks [cohort].  The
    index holds each cohort once, so the lookup yields one value. *)
Definition loc (df_q : list Q.row) (cohort : Z) (col : Q.row -> Z) : py Z :=
  match find (fun r => Q.cohort r =? cohort) df_q with
  | Some r => ret (col r)
  | None => raise KeyError
  end.

(** Lines 100-110. *)
Definition get_vals (df_q : list Q.row) (cohort : Z) : py_st (list Z) :=
  men_raw <- lift (loc df_q cohort Q.men) ;;
  women_raw <- lift (loc df_q cohort Q.women) ;;
  let sum_raw := men_raw + women_raw in
  cum_sums <- get ;;
  put (cum_sums ++ [sum_raw])%list ;;
  if negb (sum_raw =? 0) then
    men_perc <- lift (round_div (men_raw * 100) sum_raw) ;;
    women_perc <- lift (round_div (women_raw * 100) sum_raw) ;;
    ret [men_perc; women_perc; men_raw; women_raw]
  else ret [0; 0; 0; 0].

Definition COLORS : list string := ["#1A85FF"; "#D41159"].

(** One drawn segment: the [plt.bar] and [plt.text] calls of lines 119-120. *)
Record segment : Type := mk_segment {
  seg_ind : Z;
  seg_perc : Z;
  seg_bottom : Z;
  seg_color : string;
  seg_raw : Z
}.

(** [np.cumsum]. *)
Fixpoint cumsum_from (acc : Z) (values : list Z) : list Z :=
  match values with
  | [] => []
  | v :: rest => (acc + v) :: cumsum_from (acc + v) rest
  end.

Definition cumsum (values : list Z) : list Z := cumsum_from 0 values.

(** Lines 113-120; [zip] stops at its shortest argument, as [combine] does. *)
Definition plot_bar (index : Z) (values : list Z) : list segment :=
  let values_perc := firstn 2 values in
  let values_raw := skipn 2 values in
  let indices := repeat index (List.length values) in
  let cumsum_bottom_values := 0 :: removelast (cumsum values) in
  map
    (fun z =>
       match z with
       | (ind, (perc, (raw, (bottom, color)))) =>
           mk_segment ind perc bottom color raw
       end)
    (combine indices
       (combine values_perc
          (combine values_raw (combine cumsum_bottom_values COLORS)))).

(** Lines 128-132: the loop over the cohorts, [i] counting the bars. *)
Fixpoint plot_bars (df_q : list Q.row) (i : Z) (cohorts : list Z)
  : py_st (list segment) :=
  match cohorts with
  | [] => ret []
  | cohort :: rest =>
      values <- get_vals df_q cohort ;;
      let bar := plot_bar i values in
      bars <- plot_bars df_q (i + 1) rest ;;
      ret (bar ++ bars)%list
  end.

Definition is_lower (c : ascii) : bool :=
  ((97 <=? nat_of_ascii c) && (nat_of_ascii c <=? 122))%nat.

Definition is_upper (c : ascii) : bool :=
  ((65 <=? nat_of_ascii c) && (nat_of_ascii c <=? 90))%nat.

Definition upper (c : ascii) : ascii :=
  if is_lower c then ascii_of_nat (nat_of_ascii c - 32) else c.

Definition lower (c : ascii) : ascii :=
  if is_upper c then ascii_of_nat (nat_of_ascii c + 32) else c.

(** [str.title()] on ASCII text: a letter is upper case when it starts a
    run of letters and lower case inside one. *)
Fixpoint title_from (in_word : bool) (s : string) : string :=
  match s with
  | EmptyString => EmptyString
  | String c rest =>
      if is_lower c || is_upper c
      then String (if in_word then lower c else upper c) (title_from true rest)
      else String c (title_from false rest)
  end.

Definition title (s : string) : string := title_from false s.

Definition newline : string := String (ascii_of_nat 10) EmptyString.

(** Line 34. *)
Definition TITLE (lvl : string) : string :=
  "Gender of other External Team Members across Cohorts " ++ str MIN ++ "-"
    ++ str MAX ++ "," ++ newline ++ title lvl ++ "-Level".

(** Python's [sum()] on a list of integers. *)
Definition py_sum (l : list Z) : Z := fold_left Z.add l 0.

(** What [savefig] writes, as far as the data decides it: the segments
    drawn, the title and the tick labels. *)
Record figure : Type := mk_figure {
  fig_bars : list segment;
  fig_title : string;
  fig_xticks : list Z
}.

(** Line 138: the number shown after [n=]. *)
Definition total (cum_sums : list Z) : string := str (py_sum cum_sums).

(** Lines 70-165. *)
Definition visualization (lvl : string) (df_master : list Master.row)
  : py figure :=
  let cohorts := cohorts df_master in
  let df_q := build_df_q df_master cohorts in
  drawn <- runStateT (plot_bars df_q 1 cohorts) [] ;;
  let cum_sums := snd drawn in
  ret (mk_figure (fst drawn)
         (TITLE lvl ++ " (n=" ++ total cum_sums ++ ")")
         cohorts).

(** The whole run: the figure written, or the exception raised before
    [savefig] is reached. *)
Definition script (lvl : string) (df_awards_i : list IndividualAwards.row)
  (df_awards : list Awards.row) (df_dems : list Dems.row) : py figure :=
  df_master <- dataset lvl df_awards_i df_awards df_dems ;;
  visualization lvl df_master.

(** ** Small runs *)

Definition ex_awards_i : list IndividualAwards.row :=
  [ IndividualAwards.mk "P1" "A1" (Some "it") (Some "co-investigator") 2015;
    IndividualAwards.mk "P2" "A1" (Some "it") (Some "co-investigator") 2015;
    IndividualAwards.mk "P3" "A1" (Some "it") (Some "former pi") 2015;
    IndividualAwards.mk "P4" "A1" (Some "it") (Some "semi-internal") 2015;
    IndividualAwards.mk "P5" "A1" (Some "rt") (Some "advisor") 2015 ].

Definition ex_awards : list Awards.row := [ Awards.mk "A1" (Some 2) ].

Definition ex_dems : list Dems.row :=
  [ Dems.mk "P1" (Some "man"); Dems.mk "P2" (Some "woman");
    Dems.mk "P3" (Some "man"); Dems.mk "P4" (Some "woman") ].

Definition ex_filtered : list IndividualAwards.row :=
  [ IndividualAwards.mk "P1" "A1" (Some "it") (Some "co-investigator") 2015;
    IndividualAwards.mk "P2" "A1" (Some "it") (Some "co-investigator") 2015 ].

(** A person with two filtered rows: the first for an award of cohort 12,
    the second for an award of cohort 2. *)
Definition ex_repeat_awards_i : list IndividualAwards.row :=
  [ IndividualAwards.mk "P1" "A0" (Some "it") (Some "advisor") 2012;
    IndividualAwards.mk "P1" "A1" (Some "it") (Some "advisor") 2015;
    IndividualAwards.mk "P2" "A1" (Some "it") (Some "advisor") 2015;
    IndividualAwards.mk "P2" "A1" (Some "it") (Some "evaluator") 2015 ].

Definition ex_repeat_awards : list Awards.row :=
  [ Awards.mk "A0" (Some 12); Awards.mk "A1" (Some 2) ].

Definition ex_repeat_first : IndividualAwards.row :=
  IndividualAwards.mk "P1" "A0" (Some "it") (Some "advisor") 2012.

(** A participation row for an award that [awards.csv] does not list. *)
Definition ex_unmatched_awards_i : list IndividualAwards.row :=
  [ IndividualAwards.mk "P1" "A1" (Some "it") (Some "advisor") 2015;
    IndividualAwards.mk "P2" "A7" (Some "it") (Some "advisor") 2015 ].

Definition ex_three_genders : list Master.row :=
  [ Master.mk (Selected.mk "P1" "A1" 2015 (Some "advisor")) 2 (Some "woman");
    Master.mk (Selected.mk "P2" "A1" 2015 (Some "advisor")) 2
      (Some "nonbinary");
    Master.mk (Selected.mk "P3" "A1" 2015 (Some "advisor")) 2 (Some "man") ].

(** ** Vocabulary of the statements *)

(** [pat] occurs in [s]. *)
Definition is_substring (pat s : string) : Prop :=
  exists a b, s = a ++ pat ++ b.

(** [k] is [n / d] rounded to the nearest integer, a tie going to the even
    neighbour. *)
Definition is_round (k n d : Z) : Prop :=
  2 * Z.abs (n - k * d) <= Z.abs d /\
  (2 * Z.abs (n - k * d) = Z.abs d -> Z.even k = true).

(** The sum of a list of integers. *)
Definition Zsum (l : list Z) : Z := fold_right Z.add 0 l.

(** The rows of the working table with a given gender. *)
Definition count_gender (df_master : list Master.row) (gender : string) : Z :=
  Z.of_nat
    (List.length
       (filter (fun r => cell_eqb (Master.gender r) gender) df_master)).

(** Over the cohorts, the rows counted as men plus those counted as
    women. *)
Definition men_and_women (df_master : list Master.row) : Z :=
  Zsum (map (fun c => get_q df_master c "man" + get_q df_master c "woman")
          (cohorts df_master)).

(** The gender values the two value columns of [df_q] count (lines 90-91). *)
Definition summary_genders : list string := ["man"; "woman"].

(** The row test the five masks of lines 45-47 amount to. *)
Definition kept_role (r : IndividualAwards.row) : bool :=
  let role := IndividualAwards.award_role r in
  negb (cell_eqb role "pi") && negb (cell_eqb role "co-pi")
  && negb (cell_eqb role "former pi") && negb (cell_eqb role "former co-pi")
  && match option_map (contains "internal") role with
     | Some b => negb b
     | None => true
     end.

(** The summary row of a cohort. *)
Definition q_row (df_master : list Master.row) (cohort : Z) : Q.row :=
  Q.mk cohort (get_q df_master cohort "man") (get_q df_master cohort "woman").

(** ** The axes of the chart *)

(** Line 94. *)
Definition NUM_X (cohorts : list Z) : Z := Z.of_nat (List.length cohorts).

(** [np.arange(start, stop, step)] on integers, for a positive step: the
    values [start + k * step] below [stop]. *)
Definition arange (start stop step : Z) : list Z :=
  map (fun k => start + Z.of_nat k * step)
    (seq 0 (Z.to_nat ((stop - start + step - 1) / step))).

(** Line 124: the positions of the bars and of the tick labels. *)
Definition x (cohorts : list Z) : list Z := arange 1 (NUM_X cohorts + 1) 1.

(** Line 145. *)
Definition y_vals : list Z := arange 0 110 20.

(** Line 146. *)
Definition y_labels : list string := map (fun y => str y ++ "%") y_vals.

(** ** Further small inputs *)


(** An award listed without its cohort. *)
Definition ex_missing_cohort_awards : list Awards.row :=
  [ Awards.mk "A1" None ].

(** The awards of [ex_repeat_awards_i], both with a cohort in 1..9. *)
Definition ex_in_range_awards : list Awards.row :=
  [ Awards.mk "A0" (Some 3); Awards.mk "A1" (Some 2) ].

(** A person whose second filtered row is for an award that [ex_awards]
    does not list. *)
Definition ex_later_unmatched_awards_i : list IndividualAwards.row :=
  [ IndividualAwards.mk "P1" "A1" (Some "it") (Some "advisor") 2015;
    IndividualAwards.mk "P1" "A7" (Some "it") (Some "advisor") 2015 ].


(** The working table of [ex_awards_i], [ex_awards] and [ex_dems]. *)
Definition ex_master : list Master.row :=
  [ Master.mk (Selected.mk "P1" "A1" 2015 (Some "co-investigator")) 2
      (Some "man");
    Master.mk (Selected.mk "P2" "A1" 2015 (Some "co-investigator")) 2
      (Some "woman") ].

(** ** Vocabulary of the further statements *)

(** The rows of the working table in a cohort. *)
Definition rows_in_cohort (df_master : list Master.row) (cohort : Z) : Z :=
  Z.of_nat
    (List.length (filter (fun r => Master.cohort r =? cohort) df_master)).

(** The share of [part] in [whole] in percent, 0 for an empty whole. *)
Definition percent (part whole : Z) : Z :=
  if whole =? 0 then 0 else round_half_even (part * 100) whole.

(** The two segments of the bar of a cohort, drawn at position [i]. *)
Definition bar_of (df_master : list Master.row) (i cohort : Z)
  : list segment :=
  let men := get_q df_master cohort "man" in
  let women := get_q df_master cohort "woman" in
  [ mk_segment i (percent men (men + women)) 0 "#1A85FF" men;
    mk_segment i (percent women (men + women)) (percent men (men + women))
      "#D41159" women ].

(** The rows lines 42-51 keep when nothing raises. *)
Definition kept_rows (lvl : string) (df_awards_i : list IndividualAwards.row)
  : list IndividualAwards.row :=
  drop_duplicates (list_eq_dec string_dec) (level_cols lvl)
    (filter kept_role
       (filter (fun r => cell_eqb (IndividualAwards.award_type r) "it")
          df_awards_i)).

(** * Properties *)

(** ** Runs on small inputs *)

(** One award of cohort 2 with a man and a woman as external members, a
    former pi, an internal member and a row of another award type: one bar,
    split 50/50, and n=2. *)
Example script_two_members :
  script level ex_awards_i ex_awards ex_dems =
  inr (mk_figure
         [mk_segment 1 50 0 "#1A85FF" 1; mk_segment 1 50 50 "#D41159" 1]
         ("Gender of other External Team Members across Cohorts 1-9,"
            ++ newline ++ "Person-Level (n=2)")
         [2]).
Proof. reflexivity. Qed.

(** A role that is missing on a row of type "it" ends the run at [~]. *)
Example script_missing_role :
  script level [IndividualAwards.mk "P1" "A1" (Some "it") None 2015]
    ex_awards ex_dems
  = inl TypeError.
Proof. reflexivity. Qed.

(** Ties go to the even neighbour, on either side of zero. *)
Example round_half_even_ties :
  map (fun p => round_half_even (fst p) (snd p))
    [(1, 2); (3, 2); (5, 2); (-1, 2); (-3, 2); (3, -2); (7, 3); (100, 8);
     (700, 8)]
  = [0; 2; 2; 0; -2; -2; 2; 12; 88].
Proof. reflexivity. Qed.

(** Three values are observed, two are counted. *)
Example summary_three_genders :
  genders ex_three_genders = ["man"; "nonbinary"; "woman"] /\
  build_df_q ex_three_genders (cohorts ex_three_genders) = [Q.mk 2 1 1].
Proof. split; reflexivity. Qed.

(** ** Masks and boolean indexing *)

Section FrameFacts.
Context {A : Type}.

Lemma loc_mask_map (f : A -> bool) (df : list A) :
  loc_mask df (map f df) = filter f df.
Proof.
  unfold loc_mask.
  induction df as [|r df IH]; simpl; [reflexivity|].
  destruct (f r); simpl; now rewrite IH.
Qed.

Lemma mask_and_map (f g : A -> bool) (df : list A) :
  mask_and (map f df) (map g df) = map (fun r => f r && g r) df.
Proof.
  unfold mask_and.
  induction df as [|r df IH]; simpl; [reflexivity|].
  now rewrite IH.
Qed.

(** [~] returns exactly when no entry is missing, and then negates. *)
Lemma invert_map_inr (f : A -> option bool) (df : list A) (m : list bool) :
  invert (map f df) = inr m ->
  Forall (fun r => f r <> None) df /\
  m = map (fun r => match f r with Some b => negb b | None => true end) df.
Proof.
  revert m.
  induction df as [|r df IH]; simpl; intros m H.
  - inversion H. split; [constructor | reflexivity].
  - destruct (f r) as [b|] eqn:E; [|discriminate].
    destruct (invert (map f df)) as [e|m'] eqn:E'; simpl in H;
      [discriminate|].
    inversion H; subst m.
    destruct (IH m' eq_refl) as [HF Hm].
    split; [constructor; [congruence | exact HF] | now rewrite Hm].
Qed.

Lemma invert_map_total (f : A -> option bool) (df : list A) :
  Forall (fun r => f r <> None) df ->
  exists m, invert (map f df) = inr m.
Proof.
  induction 1 as [|r df Hr _ [m IH]]; simpl.
  - now exists [].
  - destruct (f r) as [b|]; [|congruence].
    rewrite IH. simpl. now eexists.
Qed.

End FrameFacts.

(** ** Substrings *)

Lemma prefix_iff (pat s : string) :
  String.prefix pat s = true <-> exists b, s = pat ++ b.
Proof.
  revert s.
  induction pat as [|c pat IH]; intros s.
  - split; [intros _; now exists s | now destruct s].
  - destruct s as [|d s]; simpl.
    + split; [discriminate | intros [b Hb]; discriminate].
    + destruct (Ascii.ascii_dec c d) as [Heq|Hne].
      * subst d. rewrite IH.
        split; intros [b Hb]; exists b; simpl in *; congruence.
      * split; [discriminate | intros [b Hb]; simpl in Hb; congruence].
Qed.

Lemma contains_iff (pat s : string) :
  contains pat s = true <-> is_substring pat s.
Proof.
  unfold is_substring.
  induction s as [|c s IH]; cbn [contains].
  - rewrite orb_false_r, prefix_iff. split.
    + intros [b ->]. now exists EmptyString, b.
    + intros [a [b H]]. destruct a; simpl in H; [now exists b | discriminate].
  - rewrite orb_true_iff, prefix_iff, IH. split.
    + intros [[b Hb] | [a [b Hb]]].
      * now exists EmptyString, b.
      * exists (String c a), b. simpl. now rewrite Hb.
    + intros [a [b H]]. destruct a as [|c' a]; simpl in H.
      * left. now exists b.
      * right. exists a, b. congruence.
Qed.

(** ** The participation filter (lines 42-47) *)

Lemma cell_eqb_eq (c : option string) (v : string) :
  cell_eqb c v = true <-> c = Some v.
Proof.
  destruct c as [s|]; simpl; [|split; discriminate].
  rewrite String.eqb_eq. split; congruence.
Qed.

Lemma cell_eqb_neq (c : option string) (v : string) :
  negb (cell_eqb c v) = true <-> c <> Some v.
Proof.
  rewrite negb_true_iff, <- not_true_iff_false, cell_eqb_eq. tauto.
Qed.

Lemma filter_award_type_eq (df : list IndividualAwards.row) :
  filter_award_type df =
  filter (fun r => cell_eqb (IndividualAwards.award_type r) "it") df.
Proof.
  unfold filter_award_type, series_eq.
  rewrite map_map. apply loc_mask_map.
Qed.

Lemma filter_award_role_inr (df out : list IndividualAwards.row) :
  filter_award_role df = inr out ->
  Forall (fun r => IndividualAwards.award_role r <> None) df /\
  out = filter kept_role df.
Proof.
  unfold filter_award_role, str_contains, series_ne.
  rewrite !map_map.
  destruct (invert _) as [e|m] eqn:E; simpl; [discriminate|].
  intros H. inversion H; subst out; clear H.
  apply invert_map_inr in E. destruct E as [HF ->].
  split.
  - eapply Forall_impl; [|exact HF]. simpl. intros r Hr Hn.
    now rewrite Hn in Hr.
  - rewrite !mask_and_map. apply loc_mask_map.
Qed.

Lemma filter_award_role_total (df : list IndividualAwards.row) :
  Forall (fun r => IndividualAwards.award_role r <> None) df ->
  exists out, filter_award_role df = inr out.
Proof.
  intros HF.
  unfold filter_award_role, str_contains. rewrite map_map.
  destruct (invert_map_total
              (fun r => option_map (contains "internal")
                          (IndividualAwards.award_role r)) df) as [m Hm].
  - eapply Forall_impl; [|exact HF]. simpl. intros r Hr.
    now destruct (IndividualAwards.award_role r).
  - rewrite Hm. simpl. now eexists.
Qed.


Lemma kept_role_iff (r : IndividualAwards.row) :
  kept_role r = true <->
  ~ In (IndividualAwards.award_role r)
      [Some "pi"; Some "co-pi"; Some "former pi"; Some "former co-pi"] /\
  ~ (exists role, IndividualAwards.award_role r = Some role /\
                  is_substring "internal" role).
Proof.
  unfold kept_role.
  rewrite !andb_true_iff, !cell_eqb_neq.
  destruct (IndividualAwards.award_role r) as [role|]; simpl.
  - rewrite negb_true_iff, <- not_true_iff_false, contains_iff.
    split.
    + intros [[[[H1 H2] H3] H4] H5]. split.
      * intros [H|[H|[H|[H|[]]]]]; congruence.
      * intros [role' [Heq Hs]]. inversion Heq; subst. tauto.
    + intros [Hn Hs]. repeat split; try (intros H; apply Hn; rewrite H; tauto).
      intros H. apply Hs. now exists role.
  - split.
    + intros _. split.
      * intros [H|[H|[H|[H|[]]]]]; discriminate.
      * intros [role [H _]]. discriminate.
    + intros _. repeat split; discriminate.
Qed.

(** C1. A participation row is in the filtered set (the table left by lines
    42-47) exactly when it is a row of the input whose award type is "it",
    whose role is none of "pi", "co-pi", "former pi", "former co-pi", and
    whose role does not have "internal" as a substring. *)
Theorem filter_correct (df_awards_i filtered : list IndividualAwards.row) :
  filter_award_role (filter_award_type df_awards_i) = inr filtered ->
  forall r,
    In r filtered <->
    In r df_awards_i /\
    IndividualAwards.award_type r = Some "it" /\
    ~ In (IndividualAwards.award_role r)
        [Some "pi"; Some "co-pi"; Some "former pi"; Some "former co-pi"] /\
    ~ (exists role, IndividualAwards.award_role r = Some role /\
                    is_substring "internal" role).
Proof.
  intros H r.
  apply filter_award_role_inr in H. destruct H as [_ ->].
  rewrite filter_award_type_eq, !filter_In, cell_eqb_eq, kept_role_iff.
  tauto.
Qed.

(** ** Keeping first occurrences: [unique] and [drop_duplicates] *)

Section FirstOccurrences.
Context {A K : Type} (K_dec : forall x y : K, {x = y} + {x <> y}).
Context (key : A -> K).

Lemma drop_duplicates_from_In (seen : list K) (df : list A) (r : A) :
  In r (drop_duplicates_from K_dec key seen df) ->
  In r df /\ ~ In (key r) seen.
Proof.
  revert seen.
  induction df as [|x df IH]; simpl; intros seen H; [tauto|].
  destruct (in_dec K_dec (key x) seen) as [Hs|Hs].
  - destruct (IH _ H). tauto.
  - destruct H as [->|H]; [tauto|].
    destruct (IH _ H) as [Hin Hn]. simpl in Hn. tauto.
Qed.

Lemma drop_duplicates_from_NoDup (seen : list K) (df : list A) :
  NoDup (map key (drop_duplicates_from K_dec key seen df)).
Proof.
  revert seen.
  induction df as [|x df IH]; simpl; intros seen; [constructor|].
  destruct (in_dec K_dec (key x) seen) as [Hs|Hs]; [apply IH|].
  simpl. constructor; [|apply IH].
  rewrite in_map_iff. intros [y [Hy Hin]].
  apply drop_duplicates_from_In in Hin. simpl in Hin.
  destruct Hin as [_ Hn]. apply Hn. now left.
Qed.

(** A kept row is the first row of the input with its key. *)
Lemma drop_duplicates_from_first (test : A -> bool) (seen : list K)
  (df : list A) (r : A) :
  (forall x, test x = true <-> key x = key r) ->
  In r (drop_duplicates_from K_dec key seen df) ->
  find test df = Some r.
Proof.
  intros Ht. revert seen.
  induction df as [|x df IH]; simpl; intros seen H; [tauto|].
  destruct (in_dec K_dec (key x) seen) as [Hs|Hs].
  - destruct (test x) eqn:E.
    + apply Ht in E. apply drop_duplicates_from_In in H.
      rewrite E in Hs. tauto.
    + eapply IH; eassumption.
  - destruct H as [->|H].
    + now rewrite (proj2 (Ht r) eq_refl).
    + destruct (test x) eqn:E.
      * apply Ht in E. apply drop_duplicates_from_In in H.
        simpl in H. tauto.
      * eapply IH; eassumption.
Qed.

(** Every key of the input keeps a row. *)
Lemma drop_duplicates_from_complete (seen : list K) (df : list A) (r : A) :
  In r df -> ~ In (key r) seen ->
  exists r', In r' (drop_duplicates_from K_dec key seen df) /\
             key r' = key r.
Proof.
  revert seen.
  induction df as [|x df IH]; simpl; intros seen Hin Hn; [tauto|].
  destruct (in_dec K_dec (key x) seen) as [Hs|Hs].
  - destruct Hin as [->|Hin]; [tauto|]. now apply IH.
  - destruct (K_dec (key x) (key r)) as [E|E].
    + exists x. simpl. tauto.
    + destruct Hin as [->|Hin]; [tauto|].
      destruct (IH (key x :: seen) Hin) as [r' [H1 H2]].
      * simpl. tauto.
      * exists r'. simpl. tauto.
Qed.

Lemma drop_duplicates_In (df : list A) (r : A) :
  In r (drop_duplicates K_dec key df) -> In r df.
Proof. intros H. now apply drop_duplicates_from_In in H. Qed.

Lemma drop_duplicates_NoDup (df : list A) :
  NoDup (map key (drop_duplicates K_dec key df)).
Proof. apply drop_duplicates_from_NoDup. Qed.

Lemma drop_duplicates_first (test : A -> bool) (df : list A) (r : A) :
  (forall x, test x = true <-> key x = key r) ->
  In r (drop_duplicates K_dec key df) -> find test df = Some r.
Proof. apply drop_duplicates_from_first. Qed.

Lemma drop_duplicates_complete (df : list A) (r : A) :
  In r df ->
  exists r', In r' (drop_duplicates K_dec key df) /\ key r' = key r.
Proof. intros H. apply drop_duplicates_from_complete; simpl; tauto. Qed.
End FirstOccurrences.

Section Unique.
Context {K : Type} (K_dec : forall x y : K, {x = y} + {x <> y}).

(** [unique] is [drop_duplicates] on the values themselves. *)
Lemma unique_from_eq (seen s : list K) :
  unique_from K_dec seen s = drop_duplicates_from K_dec (fun x => x) seen s.
Proof.
  revert seen. induction s as [|x s IH]; simpl; intros seen; [reflexivity|].
  destruct (in_dec K_dec x seen); now rewrite IH.
Qed.

Lemma unique_In (s : list K) (x : K) : In x (unique K_dec s) <-> In x s.
Proof.
  unfold unique. rewrite unique_from_eq. split.
  - intros H. now apply drop_duplicates_from_In in H.
  - intros H.
    destruct (drop_duplicates_from_complete K_dec (fun x => x) [] s x H)
      as [x' [H1 H2]]; [simpl; tauto|].
    now subst x'.
Qed.

Lemma unique_NoDup (s : list K) : NoDup (unique K_dec s).
Proof.
  unfold unique. rewrite unique_from_eq.
  rewrite <- (map_id (drop_duplicates_from _ _ _ _)).
  apply drop_duplicates_from_NoDup.
Qed.
End Unique.

(** ** Deduplication (lines 50-51) *)

Lemma NoDup_map_compose {A B C : Type} (f : A -> B) (g : B -> C)
  (l : list A) :
  NoDup (map (fun x => g (f x)) l) -> NoDup (map f l).
Proof. rewrite <- map_map. apply NoDup_map_inv. Qed.

Lemma filter_awards_i_inr (lvl : string)
  (df_awards_i filtered : list IndividualAwards.row) :
  filter_award_role (filter_award_type df_awards_i) = inr filtered ->
  filter_awards_i lvl df_awards_i =
  inr (drop_duplicates (list_eq_dec string_dec) (level_cols lvl) filtered).
Proof. intros H. unfold filter_awards_i. now rewrite H. Qed.

Section KeptRows.
Context {A K : Type} (K_dec : forall x y : K, {x = y} + {x <> y}).
Context (key : A -> K).

(** The first row of the input with its key is kept. *)
Lemma drop_duplicates_from_kept (test : A -> bool) (seen : list K)
  (df : list A) (r : A) :
  (forall x, test x = true <-> key x = key r) ->
  find test df = Some r -> ~ In (key r) seen ->
  In r (drop_duplicates_from K_dec key seen df).
Proof.
  intros Ht. revert seen.
  induction df as [|y df IH]; simpl; intros seen Hf Hn; [discriminate|].
  destruct (test y) eqn:E.
  - inversion Hf; subst y.
    destruct (in_dec K_dec (key r) seen) as [Hs|Hs]; [contradiction|].
    now left.
  - assert (Hne : key y <> key r).
    { intros Hk. apply Ht in Hk. congruence. }
    destruct (in_dec K_dec (key y) seen) as [Hs|Hs].
    + now apply IH.
    + right. apply IH; [exact Hf|]. simpl. tauto.
Qed.

Lemma drop_duplicates_kept_iff (test : A -> bool) (df : list A) (r : A) :
  (forall x, test x = true <-> key x = key r) ->
  In r (drop_duplicates K_dec key df) <-> find test df = Some r.
Proof.
  intros Ht. split.
  - now apply drop_duplicates_first.
  - intros Hf. apply (drop_duplicates_from_kept test); [exact Ht|exact Hf|].
    intros [].
Qed.
End KeptRows.

(** C6. At person level the filtered and deduplicated set holds each person
    identifier at most once; its rows are exactly the filtered rows that are
    the first of their person in input order; and it holds a row for every
    person that has a filtered row.  At any other level (role level) the
    same holds of the (person, award) pairs. *)
Theorem deduplication (df_awards_i filtered : list IndividualAwards.row) :
  filter_award_role (filter_award_type df_awards_i) = inr filtered ->
  (exists dedup,
     filter_awards_i "person" df_awards_i = inr dedup /\
     NoDup (map IndividualAwards.person_id dedup) /\
     (forall r,
        In r dedup <->
        find (fun x => String.eqb (IndividualAwards.person_id x)
                         (IndividualAwards.person_id r)) filtered = Some r) /\
     (forall r, In r filtered ->
        exists r', In r' dedup /\
                   IndividualAwards.person_id r'
                   = IndividualAwards.person_id r)) /\
  (forall lvl, lvl <> "person" ->
     exists dedup,
       filter_awards_i lvl df_awards_i = inr dedup /\
       NoDup (map (fun r => (IndividualAwards.person_id r,
                             IndividualAwards.award_id r)) dedup) /\
       (forall r,
          In r dedup <->
          find (fun x => String.eqb (IndividualAwards.person_id x)
                           (IndividualAwards.person_id r)
                         && String.eqb (IndividualAwards.award_id x)
                              (IndividualAwards.award_id r)) filtered
          = Some r) /\
       (forall r, In r filtered ->
          exists r', In r' dedup /\
                     IndividualAwards.person_id r'
                     = IndividualAwards.person_id r /\
                     IndividualAwards.award_id r'
                     = IndividualAwards.award_id r)).
Proof.
  intros H. split.
  - eexists. split; [apply filter_awards_i_inr, H|]. split; [|split].
    + apply (NoDup_map_compose _ (fun p => [p])).
      apply (drop_duplicates_NoDup _ (level_cols "person")).
    + intros r.
      apply (drop_duplicates_kept_iff (list_eq_dec string_dec)
               (level_cols "person")).
      intros y. rewrite String.eqb_eq. unfold level_cols. simpl.
      split; congruence.
    + intros r Hr.
      destruct (drop_duplicates_complete (list_eq_dec string_dec)
                  (level_cols "person") filtered r Hr) as [r' [Hin Hk]].
      exists r'. split; [exact Hin|].
      unfold level_cols in Hk. simpl in Hk. congruence.
  - intros lvl Hl. apply String.eqb_neq in Hl.
    eexists. split; [apply filter_awards_i_inr, H|]. split; [|split].
    + apply (NoDup_map_compose _ (fun p => [fst p; snd p])).
      erewrite map_ext; [apply (drop_duplicates_NoDup _ (level_cols lvl))|].
      intros r. unfold level_cols. now rewrite Hl.
    + intros r.
      apply (drop_duplicates_kept_iff (list_eq_dec string_dec)
               (level_cols lvl)).
      intros y. rewrite andb_true_iff, !String.eqb_eq.
      unfold level_cols. rewrite Hl. split.
      * intros [E1 E2]. now rewrite E1, E2.
      * intros E. inversion E. tauto.
    + intros r Hr.
      destruct (drop_duplicates_complete (list_eq_dec string_dec)
                  (level_cols lvl) filtered r Hr) as [r' [Hin Hk]].
      exists r'. split; [exact Hin|].
      unfold level_cols in Hk. rewrite Hl in Hk. inversion Hk. tauto.
Qed.

(** ** The joins and the cast (lines 55-65) *)

Lemma awards_of_In (df_awards : list Awards.row) (l : Selected.row)
  (a : Awards.row) :
  In a (awards_of df_awards l) <->
  In a df_awards /\ Awards.award_id a = Selected.award_id l.
Proof. unfold awards_of. now rewrite filter_In, String.eqb_eq. Qed.

Lemma awards_of_nil (df_awards : list Awards.row) (l : Selected.row) :
  (forall a, In a df_awards -> Awards.award_id a <> Selected.award_id l) ->
  awards_of df_awards l = [].
Proof.
  intros H. destruct (awards_of df_awards l) as [|a rest] eqn:E;
    [reflexivity|].
  assert (Ha : In a (awards_of df_awards l)) by (rewrite E; now left).
  apply awards_of_In in Ha. destruct Ha as [Hin Heq].
  now destruct (H a Hin).
Qed.

(** A row of the left join carries the cohort of a matching award, or no
    cohort when there is no matching award. *)
Lemma merge_awards_In (df_master : list Selected.row)
  (df_awards : list Awards.row) (j : Joined.row (option Z)) :
  In j (merge_awards df_master df_awards) <->
  In (Joined.base j) df_master /\
  ((awards_of df_awards (Joined.base j) = [] /\ Joined.cohort j = None) \/
   exists a, In a (awards_of df_awards (Joined.base j)) /\
             Joined.cohort j = Awards.cohort a).
Proof.
  unfold merge_awards. rewrite in_flat_map. split.
  - intros [l [Hl Hj]].
    destruct (awards_of df_awards l) as [|a rest] eqn:E.
    + destruct Hj as [<-|[]]. simpl. rewrite E. tauto.
    + rewrite <- E in Hj. apply in_map_iff in Hj.
      destruct Hj as [a' [<- Ha']]. simpl. split; [exact Hl|].
      right. now exists a'.
  - intros [Hl H]. exists (Joined.base j). split; [exact Hl|].
    destruct j as [l c]. simpl in *.
    destruct H as [[E ->]|[a [Ha ->]]].
    + rewrite E. now left.
    + destruct (awards_of df_awards l) as [|a0 rest] eqn:E; [destruct Ha|].
      exact (in_map (fun a => Joined.mk l (Awards.cohort a)) _ _ Ha).
Qed.

Lemma astype_int_In (df : list (Joined.row (option Z)))
  (out : list (Joined.row Z)) (j : Joined.row Z) :
  astype_int df = inr out ->
  In j out ->
  In (Joined.mk (Joined.base j) (Some (Joined.cohort j))) df.
Proof.
  revert out.
  induction df as [|[l c] df IH]; simpl; intros out H Hj.
  - inversion H; subst. destruct Hj.
  - destruct c as [c|]; [|discriminate].
    destruct (astype_int df) as [e|out'] eqn:E; simpl in H; [discriminate|].
    inversion H; subst out; clear H.
    destruct Hj as [<-|Hj]; simpl; [now left|].
    right. now apply (IH out').
Qed.

Lemma astype_int_raises (df : list (Joined.row (option Z)))
  (j : Joined.row (option Z)) :
  In j df -> Joined.cohort j = None -> astype_int df = inl ValueError.
Proof.
  induction df as [|x df IH]; simpl; [tauto|].
  intros [->|Hin] Hj.
  - now rewrite Hj.
  - destruct (Joined.cohort x); [|reflexivity].
    now rewrite (IH Hin Hj).
Qed.

Lemma astype_int_total (df : list (Joined.row (option Z))) :
  Forall (fun j => Joined.cohort j <> None) df ->
  exists out, astype_int df = inr out.
Proof.
  induction 1 as [|j df Hj _ [out IH]]; simpl.
  - now exists [].
  - destruct (Joined.cohort j); [|congruence].
    rewrite IH. simpl. now eexists.
Qed.

Lemma filter_cohort_eq (df_master : list (Joined.row Z)) :
  filter_cohort df_master =
  filter (fun j => (Joined.cohort j >=? MIN) && (Joined.cohort j <=? MAX))
    df_master.
Proof.
  unfold filter_cohort. rewrite !map_map, mask_and_map.
  apply loc_mask_map.
Qed.

Lemma filter_cohort_In (df_master : list (Joined.row Z)) (j : Joined.row Z) :
  In j (filter_cohort df_master) <->
  In j df_master /\ MIN <= Joined.cohort j <= MAX.
Proof.
  rewrite filter_cohort_eq, filter_In, andb_true_iff.
  rewrite Z.geb_le, Z.leb_le. tauto.
Qed.

Lemma merge_dems_In (df_master : list (Joined.row Z))
  (df_dems : list Dems.row) (r : Master.row) :
  In r (merge_dems df_master df_dems) <->
  exists j d,
    In j df_master /\ In d df_dems /\
    Dems.person_id d = Selected.person_id (Joined.base j) /\
    r = Master.mk (Joined.base j) (Joined.cohort j) (Dems.gender d).
Proof.
  unfold merge_dems, dems_of. rewrite in_flat_map. split.
  - intros [j [Hj Hr]]. apply in_map_iff in Hr.
    destruct Hr as [d [<- Hd]]. apply filter_In in Hd.
    rewrite String.eqb_eq in Hd. exists j, d. tauto.
  - intros [j [d [Hj [Hd [Hp ->]]]]]. exists j. split; [exact Hj|].
    apply in_map_iff. exists d. split; [reflexivity|].
    apply filter_In. now rewrite String.eqb_eq.
Qed.

(** Where a row of the working table comes from. *)
Lemma dataset_In (lvl : string) (df_awards_i : list IndividualAwards.row)
  (df_awards : list Awards.row) (df_dems : list Dems.row)
  (df_master : list Master.row) (r : Master.row) :
  dataset lvl df_awards_i df_awards df_dems = inr df_master ->
  In r df_master ->
  exists rows x a d,
    filter_awards_i lvl df_awards_i = inr rows /\
    In x rows /\
    In a df_awards /\
    Awards.award_id a = IndividualAwards.award_id x /\
    Awards.cohort a = Some (Master.cohort r) /\
    MIN <= Master.cohort r <= MAX /\
    In d df_dems /\
    Dems.person_id d = IndividualAwards.person_id x /\
    r = Master.mk (select_columns x) (Master.cohort r) (Dems.gender d).
Proof.
  unfold dataset. intros H Hr.
  destruct (filter_awards_i lvl df_awards_i) as [e|rows] eqn:E1; simpl in H;
    [discriminate|].
  destruct (astype_int _) as [e|cast] eqn:E2; simpl in H; [discriminate|].
  inversion H; subst df_master; clear H.
  apply merge_dems_In in Hr. destruct Hr as [j [d [Hj [Hd [Hp ->]]]]].
  apply filter_cohort_In in Hj. destruct Hj as [Hj Hrange].
  apply (astype_int_In _ _ _ E2) in Hj.
  apply merge_awards_In in Hj. simpl in Hj.
  destruct Hj as [Hx [[_ Hc]|[a [Ha Hc]]]]; [discriminate|].
  apply in_map_iff in Hx. destruct Hx as [x [Hx Hin]].
  apply awards_of_In in Ha. destruct Ha as [Ha Hid].
  exists rows, x, a, d. simpl. rewrite <- Hx in *. simpl in *.
  repeat split; try tauto; congruence.
Qed.

Lemma get_q_eq (df_master : list Master.row) (cohort : Z) (gender : string) :
  get_q df_master cohort gender =
  Z.of_nat
    (List.length
       (filter (fun r => (Master.cohort r =? cohort)
                         && cell_eqb (Master.gender r) gender) df_master)).
Proof.
  unfold get_q, series_eq. now rewrite !map_map, mask_and_map, loc_mask_map.
Qed.

Lemma filter_all {A : Type} (f : A -> bool) (l : list A) :
  (forall x, In x l -> f x = true) -> filter f l = l.
Proof.
  induction l as [|x l IH]; simpl; intros H; [reflexivity|].
  rewrite (H x (or_introl eq_refl)), IH; [reflexivity|].
  intros y Hy. apply H. now right.
Qed.

(** C4, as the code has it.  When a row of the filtered and deduplicated
    participation set has an award identifier that no award record carries, the left join keeps the
    row with a missing cohort, the cast raises, and the run ends with that
    exception instead of a figure. *)
Theorem unmatched_award_raises (lvl : string)
  (df_awards_i rows : list IndividualAwards.row)
  (df_awards : list Awards.row) (df_dems : list Dems.row)
  (r : IndividualAwards.row) :
  filter_awards_i lvl df_awards_i = inr rows ->
  In r rows ->
  (forall a, In a df_awards ->
             Awards.award_id a <> IndividualAwards.award_id r) ->
  In (Joined.mk (select_columns r) None)
     (merge_awards (map select_columns rows) df_awards) /\
  dataset lvl df_awards_i df_awards df_dems = inl ValueError /\
  script lvl df_awards_i df_awards df_dems = inl ValueError.
Proof.
  intros Hrows Hr Hno.
  assert (Hj : In (Joined.mk (select_columns r) None)
                 (merge_awards (map select_columns rows) df_awards)).
  { apply merge_awards_In. simpl. split; [now apply in_map|].
    left. split; [|reflexivity]. now apply awards_of_nil. }
  assert (Hd : dataset lvl df_awards_i df_awards df_dems = inl ValueError).
  { unfold dataset. rewrite Hrows. simpl.
    now rewrite (astype_int_raises _ _ Hj eq_refl). }
  split; [exact Hj|]. split; [exact Hd|].
  unfold script. now rewrite Hd.
Qed.

(** C4, as the claim has it, fails for a filtered row that the person-level
    deduplication drops before the join.  The second row below passes the
    filters of lines 42-47 and its award has no record, yet it is the second
    row of its person: line 51 drops it, the cast raises nothing and the run
    writes a figure with n=1. *)
Lemma unmatched_filtered_row_dropped :
  filter_award_role (filter_award_type ex_later_unmatched_awards_i)
  = inr ex_later_unmatched_awards_i /\
  In (IndividualAwards.mk "P1" "A7" (Some "it") (Some "advisor") 2015)
     ex_later_unmatched_awards_i /\
  (forall a, In a ex_awards -> Awards.award_id a <> "A7") /\
  script level ex_later_unmatched_awards_i ex_awards ex_dems
  = inr (mk_figure
           [mk_segment 1 100 0 "#1A85FF" 1; mk_segment 1 0 100 "#D41159" 0]
           ("Gender of other External Team Members across Cohorts 1-9,"
              ++ newline ++ "Person-Level (n=1)")
           [2]) /\
  script level ex_later_unmatched_awards_i ex_awards ex_dems
  <> inl ValueError.
Proof.
  split; [reflexivity|]. split; [simpl; tauto|]. split.
  - intros a [<-|[]]. discriminate.
  - split; [reflexivity | discriminate].
Qed.

(** C5. Every row of the working table has a cohort between [MIN] and
    [MAX], that is between 1 and 9. *)
Theorem cohort_range (lvl : string)
  (df_awards_i : list IndividualAwards.row) (df_awards : list Awards.row)
  (df_dems : list Dems.row) (df_master : list Master.row) :
  dataset lvl df_awards_i df_awards df_dems = inr df_master ->
  forall r, In r df_master ->
    MIN <= Master.cohort r <= MAX /\ 1 <= Master.cohort r <= 9.
Proof.
  intros H r Hr.
  destruct (dataset_In _ _ _ _ _ _ H Hr)
    as [rows [x [a [d [_ [_ [_ [_ [_ [Hrange _]]]]]]]]]].
  split; exact Hrange.
Qed.

(** C9. Person-level deduplication runs before the joins and the cohort
    filter: when the first filtered row of a person is for an award whose
    cohort is outside 1..9, no row of the working table belongs to that
    person, whatever that person's later filtered rows are, so the person
    adds to no count. *)
Theorem first_row_decides (df_awards_i filtered : list IndividualAwards.row)
  (df_awards : list Awards.row) (df_dems : list Dems.row)
  (df_master : list Master.row) (first : IndividualAwards.row) :
  filter_award_role (filter_award_type df_awards_i) = inr filtered ->
  dataset "person" df_awards_i df_awards df_dems = inr df_master ->
  find (fun x => String.eqb (IndividualAwards.person_id x)
                   (IndividualAwards.person_id first)) filtered
    = Some first ->
  (forall a c, In a df_awards ->
     Awards.award_id a = IndividualAwards.award_id first ->
     Awards.cohort a = Some c -> c < MIN \/ MAX < c) ->
  (forall r, In r df_master ->
     Master.person_id r <> IndividualAwards.person_id first) /\
  (forall cohort gender,
     get_q df_master cohort gender =
     get_q (filter (fun r => negb (String.eqb (Master.person_id r)
                                     (IndividualAwards.person_id first)))
              df_master) cohort gender).
Proof.
  intros Hf Hd Hfirst Hout.
  assert (Hno : forall r, In r df_master ->
                  Master.person_id r <> IndividualAwards.person_id first).
  { intros r Hr Hp.
    destruct (dataset_In _ _ _ _ _ _ Hd Hr)
      as [rows [x [a [d [Hrows [Hx [Ha [Hid [Hc [Hrange [_ [_ Hrow]]]]]]]]]]]].
    rewrite (filter_awards_i_inr _ _ _ Hf) in Hrows.
    inversion Hrows; subst rows; clear Hrows.
    assert (Hpx : IndividualAwards.person_id x
                  = IndividualAwards.person_id first).
    { rewrite <- Hp, Hrow. reflexivity. }
    apply (drop_duplicates_first (list_eq_dec string_dec)
             (level_cols "person")
             (fun y => String.eqb (IndividualAwards.person_id y)
                         (IndividualAwards.person_id first))) in Hx.
    - rewrite Hfirst in Hx. inversion Hx; subst x.
      destruct (Hout a _ Ha Hid Hc); lia.
    - intros y. rewrite String.eqb_eq. unfold level_cols. simpl.
      rewrite Hpx. split; congruence. }
  split; [exact Hno|].
  intros cohort gender. rewrite filter_all; [reflexivity|].
  intros r Hr. apply negb_true_iff, String.eqb_neq. now apply Hno.
Qed.

(** ** Rounding *)

Lemma round_half_even_is_round (n d : Z) :
  d <> 0 -> is_round (round_half_even n d) n d.
Proof.
  intros Hd. unfold is_round, round_half_even.
  pose proof (Z.div_mod n d Hd) as Hn.
  assert (Hr : 0 <= n mod d < d \/ d < n mod d <= 0).
  { destruct (Z.lt_total d 0) as [H|[H|H]]; [right|contradiction|left].
    - now apply Z.mod_neg_bound.
    - now apply Z.mod_pos_bound. }
  set (q := n / d) in *. set (r := n mod d) in *.
  destruct (Z.compare_spec (Z.abs (2 * r)) (Z.abs d)) as [E|E|E].
  - destruct (Z.even q) eqn:Ev.
    + split; [lia|intros _; exact Ev].
    + split; [lia|]. intros _.
      rewrite Z.even_add, Ev. reflexivity.
  - split; lia.
  - split; lia.
Qed.

Lemma is_round_unique (k k' n d : Z) :
  d <> 0 -> is_round k n d -> is_round k' n d -> k = k'.
Proof.
  unfold is_round. intros Hd [H1 E1] [H2 E2].
  assert (Hk : k' = k \/ k' = k + 1 \/ k' = k - 1 \/ k' <= k - 2 \/ k + 2 <= k')
    by lia.
  destruct Hk as [Hk|[Hk|[Hk|Hk]]]; [congruence| | |].
  - subst k'.
    assert (T1 : 2 * Z.abs (n - k * d) = Z.abs d) by lia.
    assert (T2 : 2 * Z.abs (n - (k + 1) * d) = Z.abs d) by lia.
    specialize (E1 T1). specialize (E2 T2).
    rewrite Z.even_add, E1 in E2. discriminate.
  - subst k'.
    assert (T1 : 2 * Z.abs (n - k * d) = Z.abs d) by lia.
    assert (T2 : 2 * Z.abs (n - (k - 1) * d) = Z.abs d) by lia.
    specialize (E1 T1). specialize (E2 T2).
    rewrite Z.even_sub, E1 in E2. discriminate.
  - exfalso. nia.
Qed.

(** Rounding the two shares of a whole: the results add up to 100. *)
Lemma round_complement (a b s : Z) :
  s <> 0 -> a + b = s ->
  round_half_even (a * 100) s + round_half_even (b * 100) s = 100.
Proof.
  intros Hs Hab.
  pose proof (round_half_even_is_round (a * 100) s Hs) as Ha.
  set (k := round_half_even (a * 100) s) in *.
  assert (Hb : is_round (100 - k) (b * 100) s).
  { destruct Ha as [H1 E1]. unfold is_round.
    replace (b * 100 - (100 - k) * s) with (- (a * 100 - k * s)) by lia.
    rewrite Z.abs_opp. split; [exact H1|].
    intros T. rewrite Z.even_sub, (E1 T). reflexivity. }
  pose proof (is_round_unique _ _ _ _ Hs Hb
                (round_half_even_is_round (b * 100) s Hs)) as E.
  lia.
Qed.

(** ** Bar values (lines 100-110) *)

Lemma get_vals_nonzero (df_q : list Q.row) (cohort : Z) (row : Q.row)
  (cum_sums : list Z) :
  find (fun r => Q.cohort r =? cohort) df_q = Some row ->
  Q.men row + Q.women row <> 0 ->
  runStateT (get_vals df_q cohort) cum_sums =
  inr ([round_half_even (Q.men row * 100) (Q.men row + Q.women row);
        round_half_even (Q.women row * 100) (Q.men row + Q.women row);
        Q.men row; Q.women row],
       (cum_sums ++ [Q.men row + Q.women row])%list).
Proof.
  intros Hf Hs. unfold get_vals, loc, round_div. simpl. rewrite Hf. simpl.
  apply Z.eqb_neq in Hs. rewrite Hs. reflexivity.
Qed.

Lemma get_vals_zero (df_q : list Q.row) (cohort : Z) (row : Q.row)
  (cum_sums : list Z) :
  find (fun r => Q.cohort r =? cohort) df_q = Some row ->
  Q.men row + Q.women row = 0 ->
  runStateT (get_vals df_q cohort) cum_sums =
  inr ([0; 0; 0; 0], (cum_sums ++ [0])%list).
Proof.
  intros Hf Hs. unfold get_vals, loc. simpl. rewrite Hf. simpl.
  rewrite Hs. reflexivity.
Qed.

Lemma get_vals_missing (df_q : list Q.row) (cohort : Z) (cum_sums : list Z) :
  find (fun r => Q.cohort r =? cohort) df_q = None ->
  runStateT (get_vals df_q cohort) cum_sums = inl KeyError.
Proof. intros Hf. unfold get_vals, loc. simpl. now rewrite Hf. Qed.

(** Whatever the summary holds, [get_vals] returns four values and appends
    the cohort's total, or the lookup raises: the division never does. *)
Lemma get_vals_cases (df_q : list Q.row) (cohort : Z) (cum_sums : list Z) :
  runStateT (get_vals df_q cohort) cum_sums = inl KeyError \/
  exists row values,
    find (fun r => Q.cohort r =? cohort) df_q = Some row /\
    runStateT (get_vals df_q cohort) cum_sums =
    inr (values, (cum_sums ++ [Q.men row + Q.women row])%list).
Proof.
  destruct (find (fun r => Q.cohort r =? cohort) df_q) as [row|] eqn:Hf.
  - right. exists row.
    destruct (Z.eq_dec (Q.men row + Q.women row) 0) as [Hs|Hs].
    + eexists. split; [reflexivity|].
      rewrite (get_vals_zero _ _ _ _ Hf Hs), Hs. reflexivity.
    + eexists. split; [reflexivity|]. now apply get_vals_nonzero.
  - left. now apply get_vals_missing.
Qed.

(** ** The summary table and the loop over the cohorts *)

Lemma fold_left_append {A B : Type} (f : A -> B) (l : list A)
  (init : list B) :
  fold_left (fun acc x => (acc ++ [f x])%list) l init
  = (init ++ map f l)%list.
Proof.
  revert init. induction l as [|x l IH]; simpl; intros init.
  - now rewrite app_nil_r.
  - rewrite IH, <- app_assoc. reflexivity.
Qed.

Lemma build_df_q_eq (df_master : list Master.row) (cs : list Z) :
  build_df_q df_master cs = map (q_row df_master) cs.
Proof.
  unfold build_df_q, append_q.
  exact (fold_left_append (q_row df_master) cs []).
Qed.

Lemma find_q_row (df_master : list Master.row) (cs : list Z) (c : Z) :
  In c cs ->
  find (fun r => Q.cohort r =? c) (map (q_row df_master) cs)
  = Some (q_row df_master c).
Proof.
  induction cs as [|x cs IH]; simpl; [tauto|].
  intros H. destruct (Z.eqb_spec x c) as [->|Hne]; [reflexivity|].
  destruct H as [H|H]; [contradiction|]. now apply IH.
Qed.

Lemma plot_bars_cons (df_q : list Q.row) (i c : Z) (rest cum_sums : list Z) :
  runStateT (plot_bars df_q i (c :: rest)) cum_sums =
  match runStateT (get_vals df_q c) cum_sums with
  | inl e => inl e
  | inr (values, cum_sums') =>
      match runStateT (plot_bars df_q (i + 1) rest) cum_sums' with
      | inl e => inl e
      | inr (bars, cum_sums'') =>
          inr ((plot_bar i values ++ bars)%list, cum_sums'')
      end
  end.
Proof.
  cbn [plot_bars]. cbn [bind Monad_stateT runStateT].
  destruct (runStateT (get_vals df_q c) cum_sums) as [e|[values cum']];
    [reflexivity|].
  cbn. destruct (runStateT (plot_bars df_q (i + 1) rest) cum')
    as [e|[bars cum'']]; reflexivity.
Qed.

(** The loop draws every cohort of the summary and leaves in [cum_sums]
    the totals of the cohorts, in order. *)
Lemma plot_bars_run (df_master : list Master.row) (cs0 cs : list Z) :
  incl cs cs0 ->
  forall i cum_sums,
  exists bars,
    runStateT (plot_bars (map (q_row df_master) cs0) i cs) cum_sums =
    inr (bars,
         (cum_sums ++
          map (fun c => get_q df_master c "man" + get_q df_master c "woman")
            cs)%list).
Proof.
  induction cs as [|c cs IH]; intros Hincl i cum_sums.
  - exists []. simpl. now rewrite app_nil_r.
  - rewrite plot_bars_cons.
    assert (Hc : In c cs0) by (apply Hincl; now left).
    pose proof (find_q_row df_master cs0 c Hc) as Hf.
    assert (E : exists values,
               runStateT (get_vals (map (q_row df_master) cs0) c) cum_sums =
               inr (values,
                    (cum_sums ++ [Q.men (q_row df_master c)
                                  + Q.women (q_row df_master c)])%list)).
    { destruct (Z.eq_dec (Q.men (q_row df_master c)
                          + Q.women (q_row df_master c)) 0) as [Hs|Hs].
      - eexists. rewrite (get_vals_zero _ _ _ _ Hf Hs), Hs. reflexivity.
      - eexists. now apply get_vals_nonzero. }
    destruct E as [values E]. rewrite E.
    destruct (IH (fun x Hx => Hincl x (or_intror Hx)) (i + 1)
                (cum_sums ++ [Q.men (q_row df_master c)
                              + Q.women (q_row df_master c)])%list)
      as [bars Hb].
      rewrite Hb. eexists. simpl. now rewrite <- app_assoc.
Qed.

(** ** Sorting *)

Section SortingFacts.
Context {A : Type} (leb : A -> A -> bool) (R : A -> A -> Prop).
Hypothesis leb_true : forall a b, leb a b = true -> R a b.
Hypothesis leb_false : forall a b, leb a b = false -> R b a.

Lemma insert_sorted_perm (x : A) (l : list A) :
  Permutation (insert_sorted leb x l) (x :: l).
Proof.
  induction l as [|y l IH]; simpl; [reflexivity|].
  destruct (leb x y); [reflexivity|].
  rewrite IH. apply perm_swap.
Qed.

Lemma sorted_perm (l : list A) : Permutation (sorted leb l) l.
Proof.
  induction l as [|x l IH]; simpl; [reflexivity|].
  rewrite insert_sorted_perm. now apply perm_skip.
Qed.

Lemma insert_sorted_Sorted (x : A) (l : list A) :
  Sorted R l -> Sorted R (insert_sorted leb x l).
Proof.
  induction 1 as [|y l Hl IH Hy]; simpl.
  - constructor; constructor.
  - destruct (leb x y) eqn:E.
    + constructor; [now constructor|]. constructor. now apply leb_true.
    + constructor; [exact IH|].
      destruct l as [|z l]; simpl.
      * constructor. now apply leb_false.
      * destruct (leb x z); constructor;
          [now apply leb_false | now inversion Hy].
Qed.

Lemma sorted_Sorted (l : list A) : Sorted R (sorted leb l).
Proof.
  induction l as [|x l IH]; simpl; [constructor|].
  now apply insert_sorted_Sorted.
Qed.
End SortingFacts.

Lemma Z_sorted_ascending (l : list Z) : Sorted Z.le (sorted Z.leb l).
Proof.
  apply (sorted_Sorted Z.leb Z.le).
  - intros a b. apply Z.leb_le.
  - intros a b H. apply Z.leb_gt in H. lia.
Qed.

Lemma string_sorted_ascending (l : list string) :
  Sorted (fun a b => String.leb a b = true) (sorted String.leb l).
Proof.
  apply (sorted_Sorted String.leb).
  - tauto.
  - intros a b H. destruct (String.leb_total a b) as [H'|H']; congruence.
Qed.

(** Without repeats, ascending is strictly ascending. *)
Lemma Sorted_le_NoDup_lt (l : list Z) :
  Sorted Z.le l -> NoDup l -> Sorted Z.lt l.
Proof.
  intros Hs Hn.
  apply Sorted_StronglySorted in Hs; [|intros x y z; apply Z.le_trans].
  induction Hs as [|x l Hs IH Hx]; [constructor|].
  inversion Hn as [|? ? Hnot Hn']; subst.
  constructor; [now apply IH|].
  destruct l as [|y l]; constructor.
  inversion Hx as [|? ? Hxy _]; subst.
  assert (x <> y) by (intros ->; apply Hnot; now left).
  lia.
Qed.

(** ** The axes (lines 81-86) *)

Lemma str_Z_not_nan (z : Z) : str z <> "nan".
Proof.
  unfold str, Str_Z, Z.to_int.
  destruct z as [|p|p]; simpl; try discriminate.
  unfold NilZero.string_of_uint.
  destruct (Pos.to_uint p); discriminate.
Qed.

Lemma no_nans_Z (z : Z) : no_nans z = true.
Proof.
  unfold no_nans. apply negb_true_iff, String.eqb_neq, str_Z_not_nan.
Qed.

Lemma cohorts_perm (df_master : list Master.row) :
  Permutation (cohorts df_master)
    (unique Z.eq_dec (map Master.cohort df_master)).
Proof.
  unfold cohorts. rewrite sorted_perm.
  rewrite filter_all; [reflexivity|]. intros z _. apply no_nans_Z.
Qed.

Lemma cohorts_In (df_master : list Master.row) (c : Z) :
  In c (cohorts df_master) <->
  exists r, In r df_master /\ Master.cohort r = c.
Proof.
  split.
  - intros H. apply (Permutation_in _ (cohorts_perm df_master)) in H.
    apply unique_In, in_map_iff in H. destruct H as [r [H1 H2]].
    now exists r.
  - intros [r [H1 H2]].
    apply (Permutation_in _ (Permutation_sym (cohorts_perm df_master))).
    apply unique_In, in_map_iff. now exists r.
Qed.

Lemma cohorts_NoDup (df_master : list Master.row) :
  NoDup (cohorts df_master).
Proof.
  apply (Permutation_NoDup (Permutation_sym (cohorts_perm df_master))).
  apply unique_NoDup.
Qed.

Lemma cohorts_ascending (df_master : list Master.row) :
  Sorted Z.lt (cohorts df_master).
Proof.
  apply Sorted_le_NoDup_lt; [apply Z_sorted_ascending | apply cohorts_NoDup].
Qed.

Lemma texts_In (s : list (option string)) (g : string) :
  In g (texts s) <-> In (Some g) s.
Proof.
  unfold texts. rewrite in_flat_map. split.
  - intros [[t|] [H1 H2]]; simpl in H2; [|tauto].
    destruct H2 as [->|[]]. exact H1.
  - intros H. exists (Some g). simpl. tauto.
Qed.

Lemma texts_NoDup (s : list (option string)) : NoDup s -> NoDup (texts s).
Proof.
  induction 1 as [|c s Hc Hs IH]; simpl; [constructor|].
  destruct c as [t|]; simpl; [|exact IH].
  constructor; [|exact IH]. now rewrite texts_In.
Qed.

Lemma genders_In (df_master : list Master.row) (g : string) :
  In g (genders df_master) <->
  (exists r, In r df_master /\ Master.gender r = Some g) /\ g <> "nan".
Proof.
  unfold genders.
  assert (Hp := sorted_perm String.leb
            (texts (filter no_nans
                      (unique cell_dec (map Master.gender df_master))))).
  split.
  - intros H. apply (Permutation_in _ Hp) in H.
    apply texts_In, filter_In in H. destruct H as [H Hn].
    apply unique_In, in_map_iff in H. destruct H as [r [H1 H2]].
    split; [now exists r|].
    unfold no_nans in Hn. simpl in Hn.
    now apply negb_true_iff, String.eqb_neq in Hn.
  - intros [[r [H1 H2]] Hn].
    apply (Permutation_in _ (Permutation_sym Hp)).
    apply texts_In, filter_In. split.
    + apply unique_In, in_map_iff. now exists r.
    + unfold no_nans. simpl. now apply negb_true_iff, String.eqb_neq.
Qed.

Lemma genders_NoDup (df_master : list Master.row) :
  NoDup (genders df_master).
Proof.
  unfold genders.
  eapply Permutation_NoDup;
    [apply Permutation_sym, (sorted_perm String.leb)|].
  apply texts_NoDup, NoDup_filter, unique_NoDup.
Qed.

(** ** Totals *)

Lemma py_sum_eq (l : list Z) : py_sum l = Zsum l.
Proof.
  unfold py_sum, Zsum. apply fold_symmetric; intros; lia.
Qed.

Lemma Zsum_map_add {A : Type} (f g : A -> Z) (l : list A) :
  Zsum (map (fun x => f x + g x) l) = Zsum (map f l) + Zsum (map g l).
Proof. induction l as [|x l IH]; simpl; lia. Qed.

Lemma Zsum_map_zero {A : Type} (l : list A) : Zsum (map (fun _ => 0) l) = 0.
Proof. induction l as [|x l IH]; simpl; lia. Qed.

Lemma Zsum_indicator (k : Z) (cs : list Z) :
  NoDup cs -> In k cs ->
  Zsum (map (fun c => if k =? c then 1 else 0) cs) = 1.
Proof.
  induction 1 as [|c cs Hc Hn IH]; simpl; [tauto|].
  intros [->|Hk].
  - rewrite Z.eqb_refl.
    rewrite (map_ext_in _ (fun _ => 0)); [rewrite Zsum_map_zero; lia|].
    intros x Hx. destruct (Z.eqb_spec k x); [congruence|reflexivity].
  - destruct (Z.eqb_spec k c); [congruence|]. rewrite (IH Hk). lia.
Qed.

(** Counting per cohort and adding up counts every row once. *)
Lemma Zsum_get_q (df_master : list Master.row) (cs : list Z)
  (gender : string) :
  NoDup cs ->
  (forall r, In r df_master -> In (Master.cohort r) cs) ->
  Zsum (map (fun c => get_q df_master c gender) cs)
  = count_gender df_master gender.
Proof.
  intros Hn. unfold count_gender.
  induction df_master as [|x t IH]; intros Hall.
  - rewrite (map_ext _ (fun _ => 0)); [apply Zsum_map_zero|].
    intros c. now rewrite get_q_eq.
  - rewrite (map_ext _
       (fun c => (if Master.cohort x =? c
                  then (if cell_eqb (Master.gender x) gender then 1 else 0)
                  else 0)
                 + get_q t c gender)).
    + rewrite Zsum_map_add, IH by (intros r Hr; apply Hall; now right).
      simpl. destruct (cell_eqb (Master.gender x) gender).
      * rewrite Zsum_indicator; [cbn [List.length]; lia | exact Hn |].
        apply Hall. now left.
      * rewrite (map_ext _ (fun _ => 0)); [rewrite Zsum_map_zero; lia|].
        intros c. now destruct (Master.cohort x =? c).
    + intros c. rewrite !get_q_eq. cbn [filter].
      destruct (Master.cohort x =? c); cbn [andb];
        [destruct (cell_eqb (Master.gender x) gender)|];
        cbn [List.length]; lia.
Qed.

Lemma men_and_women_eq (df_master : list Master.row) :
  men_and_women df_master
  = count_gender df_master "man" + count_gender df_master "woman".
Proof.
  unfold men_and_women. rewrite Zsum_map_add.
  rewrite !Zsum_get_q; try apply cohorts_NoDup; try reflexivity;
    intros r Hr; apply cohorts_In; now exists r.
Qed.

Lemma count_genders_le (df_master : list Master.row) :
  count_gender df_master "man" + count_gender df_master "woman"
  <= Z.of_nat (List.length df_master).
Proof.
  unfold count_gender.
  induction df_master as [|x t IH]; cbn [filter List.length]; [lia|].
  destruct (Master.gender x) as [g|]; cbn [cell_eqb List.length]; [|lia].
  destruct (String.eqb_spec g "man") as [->|H1].
  - replace (String.eqb "man" "woman") with false by reflexivity.
    cbn [List.length]. lia.
  - destruct (String.eqb_spec g "woman"); cbn [List.length]; lia.
Qed.

Lemma get_q_nonneg (df_master : list Master.row) (cohort : Z)
  (gender : string) : 0 <= get_q df_master cohort gender.
Proof. unfold get_q. lia. Qed.

Lemma visualization_run (lvl : string) (df_master : list Master.row) :
  exists bars,
    visualization lvl df_master =
    inr (mk_figure bars
           (TITLE lvl ++ " (n=" ++ str (men_and_women df_master) ++ ")")
           (cohorts df_master)).
Proof.
  unfold visualization. rewrite build_df_q_eq.
  destruct (plot_bars_run df_master (cohorts df_master) (cohorts df_master)
              (incl_refl _) 1 []) as [bars Hb].
  rewrite Hb. exists bars. simpl. unfold total.
  now rewrite py_sum_eq.
Qed.

(** The two percentages [get_vals] returns for a cohort with a nonzero total
    add up to 100. *)
Lemma get_vals_percents (df_q : list Q.row) (cohort : Z) (row : Q.row)
  (cum_sums : list Z) :
  find (fun r => Q.cohort r =? cohort) df_q = Some row ->
  Q.men row + Q.women row <> 0 ->
  exists men_perc women_perc,
    runStateT (get_vals df_q cohort) cum_sums =
    inr ([men_perc; women_perc; Q.men row; Q.women row],
         (cum_sums ++ [Q.men row + Q.women row])%list) /\
    men_perc + women_perc = 100.
Proof.
  intros Hf Hs. eexists. eexists. split.
  - now apply get_vals_nonzero.
  - now apply round_complement.
Qed.

Lemma plot_bar_values (i men_perc women_perc men_raw women_raw : Z) :
  plot_bar i [men_perc; women_perc; men_raw; women_raw] =
  [mk_segment i men_perc 0 "#1A85FF" men_raw;
   mk_segment i women_perc men_perc "#D41159" women_raw].
Proof. reflexivity. Qed.

(** * The claims about the rendering *)

(** C2. The number shown after n= in the title is the sum over the cohorts
    of the rows counted as men and as women.  It is the number of rows whose
    gender is "man" or "woman", it never exceeds the number of rows of the
    working table, and it is smaller on a table that holds another gender
    value. *)
Theorem displayed_total :
  (forall lvl df_master,
     exists bars,
       visualization lvl df_master =
       inr (mk_figure bars
              (TITLE lvl ++ " (n=" ++ str (men_and_women df_master) ++ ")")
              (cohorts df_master))) /\
  (forall df_master,
     men_and_women df_master
     = count_gender df_master "man" + count_gender df_master "woman") /\
  (forall df_master,
     men_and_women df_master <= Z.of_nat (List.length df_master)) /\
  (exists df_master,
     men_and_women df_master < Z.of_nat (List.length df_master)).
Proof.
  split; [exact visualization_run|].
  split; [exact men_and_women_eq|].
  split.
  - intros t. rewrite men_and_women_eq. apply count_genders_le.
  - exists [Master.mk (Selected.mk "P1" "A1" 2015 (Some "advisor")) 2
              (Some "nonbinary")].
    vm_compute. reflexivity.
Qed.

(** C7. A cohort whose two counts add up to 0 gets the bar values 0, 0, 0,
    0 without a division; its two counts are 0; the division in [get_vals]
    never raises; and computing the figure of any working table raises
    nothing. *)
Theorem zero_total_cohort :
  (forall df_q cohort row cum_sums,
     find (fun r => Q.cohort r =? cohort) df_q = Some row ->
     Q.men row + Q.women row = 0 ->
     runStateT (get_vals df_q cohort) cum_sums =
     inr ([0; 0; 0; 0], (cum_sums ++ [0])%list)) /\
  (forall df_master cohort,
     get_q df_master cohort "man" + get_q df_master cohort "woman" = 0 ->
     get_q df_master cohort "man" = 0 /\
     get_q df_master cohort "woman" = 0) /\
  (forall df_q cohort cum_sums,
     runStateT (get_vals df_q cohort) cum_sums <> inl ZeroDivisionError) /\
  (forall lvl df_master, exists fig, visualization lvl df_master = inr fig).
Proof.
  split; [exact get_vals_zero|]. split; [|split].
  - intros t c H.
    pose proof (get_q_nonneg t c "man").
    pose proof (get_q_nonneg t c "woman"). lia.
  - intros df_q c cum.
    destruct (get_vals_cases df_q c cum) as [E|[row [values [_ E]]]];
      rewrite E; discriminate.
  - intros lvl t. destruct (visualization_run lvl t) as [bars H].
    eexists. exact H.
Qed.

(** C10. For a cohort with a positive total the two percentages, each
    rounded on its own, add up to exactly 100; 1 man and 7 women give 12 and
    88. *)
Theorem percents_sum_to_100 :
  (forall df_q cohort row cum_sums,
     find (fun r => Q.cohort r =? cohort) df_q = Some row ->
     Q.men row + Q.women row > 0 ->
     exists men_perc women_perc,
       runStateT (get_vals df_q cohort) cum_sums =
       inr ([men_perc; women_perc; Q.men row; Q.women row],
            (cum_sums ++ [Q.men row + Q.women row])%list) /\
       men_perc + women_perc = 100) /\
  (forall cohort cum_sums,
     runStateT (get_vals [Q.mk cohort 1 7] cohort) cum_sums =
     inr ([12; 88; 1; 7], (cum_sums ++ [8])%list)).
Proof.
  split.
  - intros df_q c row cum Hf Hs. apply get_vals_percents; [exact Hf | lia].
  - intros c cum.
    rewrite (get_vals_nonzero [Q.mk c 1 7] c (Q.mk c 1 7));
      [reflexivity | simpl; now rewrite Z.eqb_refl | discriminate].
Qed.

(** C3, as the code has it.  For a cohort with a nonzero total each
    percentage is the count times 100 over the total, rounded to the nearest
    integer with a tie going to the even one, each on its own; the bar is
    drawn with these two heights as they are; 3 men and 1 woman give 75 and
    25. *)
Theorem percent_per_segment :
  (forall df_q cohort row cum_sums,
     find (fun r => Q.cohort r =? cohort) df_q = Some row ->
     Q.men row + Q.women row <> 0 ->
     exists men_perc women_perc,
       runStateT (get_vals df_q cohort) cum_sums =
       inr ([men_perc; women_perc; Q.men row; Q.women row],
            (cum_sums ++ [Q.men row + Q.women row])%list) /\
       men_perc
       = round_half_even (Q.men row * 100) (Q.men row + Q.women row) /\
       women_perc
       = round_half_even (Q.women row * 100) (Q.men row + Q.women row) /\
       is_round men_perc (Q.men row * 100) (Q.men row + Q.women row) /\
       is_round women_perc (Q.women row * 100) (Q.men row + Q.women row) /\
       forall i,
         map seg_perc
           (plot_bar i [men_perc; women_perc; Q.men row; Q.women row])
         = [men_perc; women_perc]) /\
  (forall cohort cum_sums,
     runStateT (get_vals [Q.mk cohort 3 1] cohort) cum_sums =
     inr ([75; 25; 3; 1], (cum_sums ++ [4])%list)).
Proof.
  split.
  - intros df_q c row cum Hf Hs. eexists. eexists.
    split; [now apply get_vals_nonzero|].
    repeat split; try reflexivity; now apply round_half_even_is_round.
  - intros c cum.
    rewrite (get_vals_nonzero [Q.mk c 3 1] c (Q.mk c 3 1));
      [reflexivity | simpl; now rewrite Z.eqb_refl | discriminate].
Qed.

(** C3, as the claim has it, fails in its last part: no cohort with a
    nonzero total gets two percentages that add up to anything but 100. *)
Lemma percents_never_off_100 :
  ~ (exists df_q cohort row cum_sums men_perc women_perc cum_sums',
       find (fun r => Q.cohort r =? cohort) df_q = Some row /\
       Q.men row + Q.women row <> 0 /\
       runStateT (get_vals df_q cohort) cum_sums =
       inr ([men_perc; women_perc; Q.men row; Q.women row], cum_sums') /\
       men_perc + women_perc <> 100).
Proof.
  intros [df_q [c [row [cum [mp [wp [cum' [Hf [Hs [Hr Hne]]]]]]]]]].
  destruct (get_vals_percents df_q c row cum Hf Hs) as [mp' [wp' [Hr' H]]].
  rewrite Hr in Hr'. inversion Hr'; subst. contradiction.
Qed.

(** C8, as the claim has it, fails in its second half: the gender entries of
    a summary row are not the counts of the gender values observed.  On a
    table with the values "woman", "nonbinary" and "man" three values are
    observed and the row still holds two counts. *)
Lemma gender_axis_not_observed :
  ~ (forall df_master row,
       In row (build_df_q df_master (cohorts df_master)) ->
       [Q.men row; Q.women row]
       = map (get_q df_master (Q.cohort row)) (genders df_master)).
Proof.
  intros H.
  specialize (H ex_three_genders (Q.mk 2 1 1) (or_introl eq_refl)).
  vm_compute in H. discriminate.
Qed.

(** C8, as the code has it.  The cohorts of the summary are the distinct
    cohorts of the working table in strictly ascending order, one summary row
    each; [genders] is the ascending list, without repeats, of the gender
    values that are present and do not print as nan; and the gender entries
    of every summary row are the counts of "man" and of "woman", whatever
    values are observed. *)
Theorem summary_axes (df_master : list Master.row) :
  Sorted Z.lt (cohorts df_master) /\
  (forall c, In c (cohorts df_master) <->
             exists r, In r df_master /\ Master.cohort r = c) /\
  map Q.cohort (build_df_q df_master (cohorts df_master))
  = cohorts df_master /\
  Sorted (fun a b => String.leb a b = true) (genders df_master) /\
  NoDup (genders df_master) /\
  (forall g, In g (genders df_master) <->
             (exists r, In r df_master /\ Master.gender r = Some g) /\
             g <> "nan") /\
  (forall row, In row (build_df_q df_master (cohorts df_master)) ->
     [Q.men row; Q.women row]
     = map (get_q df_master (Q.cohort row)) summary_genders).
Proof.
  split; [apply cohorts_ascending|].
  split; [apply cohorts_In|].
  split; [rewrite build_df_q_eq, map_map; apply map_id|].
  split; [apply string_sorted_ascending|].
  split; [apply genders_NoDup|].
  split; [apply genders_In|].
  intros row Hrow. rewrite build_df_q_eq in Hrow.
  apply in_map_iff in Hrow. destruct Hrow as [c [<- _]]. reflexivity.
Qed.

(** * The claims at concrete inputs *)

Lemma filter_correct_witness :
  filter_award_role (filter_award_type ex_awards_i) = inr ex_filtered /\
  forall r,
    In r ex_filtered <->
    In r ex_awards_i /\
    IndividualAwards.award_type r = Some "it" /\
    ~ In (IndividualAwards.award_role r)
        [Some "pi"; Some "co-pi"; Some "former pi"; Some "former co-pi"] /\
    ~ (exists role, IndividualAwards.award_role r = Some role /\
                    is_substring "internal" role).
Proof.
  split; [reflexivity|].
  exact (filter_correct ex_awards_i ex_filtered eq_refl).
Defined.

Lemma deduplication_witness :
  filter_award_role (filter_award_type ex_repeat_awards_i)
  = inr ex_repeat_awards_i /\
  (exists dedup,
     filter_awards_i "person" ex_repeat_awards_i = inr dedup /\
     NoDup (map IndividualAwards.person_id dedup) /\
     (forall r,
        In r dedup <->
        find (fun x => String.eqb (IndividualAwards.person_id x)
                         (IndividualAwards.person_id r)) ex_repeat_awards_i
        = Some r) /\
     (forall r, In r ex_repeat_awards_i ->
        exists r', In r' dedup /\
                   IndividualAwards.person_id r'
                   = IndividualAwards.person_id r)) /\
  (forall lvl, lvl <> "person" ->
     exists dedup,
       filter_awards_i lvl ex_repeat_awards_i = inr dedup /\
       NoDup (map (fun r => (IndividualAwards.person_id r,
                             IndividualAwards.award_id r)) dedup) /\
       (forall r,
          In r dedup <->
          find (fun x => String.eqb (IndividualAwards.person_id x)
                           (IndividualAwards.person_id r)
                         && String.eqb (IndividualAwards.award_id x)
                              (IndividualAwards.award_id r))
            ex_repeat_awards_i
          = Some r) /\
       (forall r, In r ex_repeat_awards_i ->
          exists r', In r' dedup /\
                     IndividualAwards.person_id r'
                     = IndividualAwards.person_id r /\
                     IndividualAwards.award_id r'
                     = IndividualAwards.award_id r)).
Proof.
  split; [reflexivity|].
  exact (deduplication ex_repeat_awards_i ex_repeat_awards_i eq_refl).
Defined.

Lemma unmatched_award_raises_witness :
  filter_awards_i level ex_unmatched_awards_i = inr ex_unmatched_awards_i /\
  In (Joined.mk
        (select_columns
           (IndividualAwards.mk "P2" "A7" (Some "it") (Some "advisor") 2015))
        None)
     (merge_awards (map select_columns ex_unmatched_awards_i) ex_awards) /\
  dataset level ex_unmatched_awards_i ex_awards ex_dems = inl ValueError /\
  script level ex_unmatched_awards_i ex_awards ex_dems = inl ValueError.
Proof.
  split; [reflexivity|].
  apply (unmatched_award_raises level ex_unmatched_awards_i
           ex_unmatched_awards_i ex_awards ex_dems
           (IndividualAwards.mk "P2" "A7" (Some "it") (Some "advisor") 2015)
           eq_refl).
  - simpl. tauto.
  - intros a [<-|[]]. simpl. discriminate.
Defined.

Lemma cohort_range_witness :
  dataset level ex_awards_i ex_awards ex_dems
  = inr [ Master.mk (Selected.mk "P1" "A1" 2015 (Some "co-investigator")) 2
            (Some "man");
          Master.mk (Selected.mk "P2" "A1" 2015 (Some "co-investigator")) 2
            (Some "woman") ] /\
  forall r,
    In r [ Master.mk (Selected.mk "P1" "A1" 2015 (Some "co-investigator")) 2
             (Some "man");
           Master.mk (Selected.mk "P2" "A1" 2015 (Some "co-investigator")) 2
             (Some "woman") ] ->
    MIN <= Master.cohort r <= MAX /\ 1 <= Master.cohort r <= 9.
Proof.
  split; [reflexivity|].
  exact (cohort_range level ex_awards_i ex_awards ex_dems _ eq_refl).
Defined.

Lemma first_row_decides_witness :
  dataset "person" ex_repeat_awards_i ex_repeat_awards ex_dems
  = inr [ Master.mk (Selected.mk "P2" "A1" 2015 (Some "advisor")) 2
            (Some "woman") ] /\
  In (IndividualAwards.mk "P1" "A1" (Some "it") (Some "advisor") 2015)
     ex_repeat_awards_i /\
  (forall r,
     In r [ Master.mk (Selected.mk "P2" "A1" 2015 (Some "advisor")) 2
              (Some "woman") ] ->
     Master.person_id r <> "P1") /\
  (forall cohort gender,
     get_q [ Master.mk (Selected.mk "P2" "A1" 2015 (Some "advisor")) 2
               (Some "woman") ] cohort gender =
     get_q (filter (fun r => negb (String.eqb (Master.person_id r) "P1"))
              [ Master.mk (Selected.mk "P2" "A1" 2015 (Some "advisor")) 2
                  (Some "woman") ]) cohort gender).
Proof.
  split; [reflexivity|]. split; [simpl; tauto|].
  apply (first_row_decides ex_repeat_awards_i ex_repeat_awards_i
           ex_repeat_awards ex_dems _ ex_repeat_first eq_refl eq_refl eq_refl).
  intros a c [<-|[<-|[]]] Hid Hc; simpl in Hid, Hc.
  - inversion Hc; subst c. right. reflexivity.
  - discriminate.
Defined.

(** * Further properties of the script *)

(** ** When the dataset stage returns *)

Lemma filter_award_type_In (df : list IndividualAwards.row)
  (r : IndividualAwards.row) :
  In r (filter_award_type df) <->
  In r df /\ IndividualAwards.award_type r = Some "it".
Proof. now rewrite filter_award_type_eq, filter_In, cell_eqb_eq. Qed.

Lemma filter_awards_i_kept (lvl : string)
  (df_awards_i rows : list IndividualAwards.row) :
  filter_awards_i lvl df_awards_i = inr rows ->
  rows = kept_rows lvl df_awards_i /\
  forall r, In r df_awards_i ->
    IndividualAwards.award_type r = Some "it" ->
    IndividualAwards.award_role r <> None.
Proof.
  unfold filter_awards_i, kept_rows. intros H.
  destruct (filter_award_role (filter_award_type df_awards_i))
    as [e|filtered] eqn:E; simpl in H; [discriminate|].
  inversion H; subst rows; clear H.
  apply filter_award_role_inr in E. destruct E as [HF ->].
  split; [now rewrite filter_award_type_eq|].
  intros r Hr Ht. rewrite Forall_forall in HF. apply HF.
  now apply filter_award_type_In.
Qed.


Lemma filter_awards_i_eq (lvl : string)
  (df_awards_i : list IndividualAwards.row) :
  (forall r, In r df_awards_i ->
     IndividualAwards.award_type r = Some "it" ->
     IndividualAwards.award_role r <> None) ->
  filter_awards_i lvl df_awards_i = inr (kept_rows lvl df_awards_i).
Proof.
  intros H.
  destruct (filter_award_role_total (filter_award_type df_awards_i))
    as [out Hout].
  - apply Forall_forall. intros r Hr.
    apply filter_award_type_In in Hr. now apply H.
  - assert (E : filter_awards_i lvl df_awards_i
                = inr (drop_duplicates (list_eq_dec string_dec)
                         (level_cols lvl) out))
      by (unfold filter_awards_i; now rewrite Hout).
    destruct (filter_awards_i_kept _ _ _ E) as [<- _]. exact E.
Qed.



Lemma astype_int_complete (df : list (Joined.row (option Z)))
  (out : list (Joined.row Z)) (j : Joined.row (option Z)) :
  astype_int df = inr out ->
  In j df ->
  exists c, Joined.cohort j = Some c /\ In (Joined.mk (Joined.base j) c) out.
Proof.
  revert out.
  induction df as [|y df IH]; simpl; intros out H Hj; [tauto|].
  destruct (Joined.cohort y) as [c|] eqn:Ec; [|discriminate].
  destruct (astype_int df) as [e|out'] eqn:E; simpl in H; [discriminate|].
  inversion H; subst out; clear H.
  destruct Hj as [->|Hj].
  - exists c. split; [exact Ec | now left].
  - destruct (IH out' eq_refl Hj) as [c' [H1 H2]].
    exists c'. split; [exact H1 | now right].
Qed.

Lemma dataset_join_raises (lvl : string)
  (df_awards_i rows : list IndividualAwards.row)
  (df_awards : list Awards.row) (df_dems : list Dems.row)
  (j : Joined.row (option Z)) :
  filter_awards_i lvl df_awards_i = inr rows ->
  In j (merge_awards (map select_columns rows) df_awards) ->
  Joined.cohort j = None ->
  dataset lvl df_awards_i df_awards df_dems = inl ValueError /\
  script lvl df_awards_i df_awards df_dems = inl ValueError.
Proof.
  intros Hrows Hj Hn.
  assert (Hd : dataset lvl df_awards_i df_awards df_dems = inl ValueError).
  { unfold dataset. rewrite Hrows. simpl.
    now rewrite (astype_int_raises _ _ Hj Hn). }
  split; [exact Hd|]. unfold script. now rewrite Hd.
Qed.

(** X3. A kept participation row whose award is listed with a missing
    cohort ends the run with [ValueError] at the cast, as a row without any
    award record does. *)
Theorem missing_cohort_ends_run (lvl : string)
  (df_awards_i rows : list IndividualAwards.row)
  (df_awards : list Awards.row) (df_dems : list Dems.row)
  (r : IndividualAwards.row) (a : Awards.row) :
  filter_awards_i lvl df_awards_i = inr rows ->
  In r rows ->
  In a df_awards ->
  Awards.award_id a = IndividualAwards.award_id r ->
  Awards.cohort a = None ->
  dataset lvl df_awards_i df_awards df_dems = inl ValueError /\
  script lvl df_awards_i df_awards df_dems = inl ValueError.
Proof.
  intros Hrows Hr Ha Hid Hn.
  apply (dataset_join_raises lvl df_awards_i rows df_awards df_dems
           (Joined.mk (select_columns r) None) Hrows); [|reflexivity].
  apply merge_awards_In. simpl. split; [now apply in_map|].
  right. exists a. split; [|now rewrite Hn].
  apply awards_of_In. now split.
Qed.

(** X4. Once lines 42-51 have returned, lines 55-65 return a working table
    exactly when every kept row has an award record and no award record of a
    kept row has a missing cohort; when they do not return, they end with
    [ValueError]. *)
Theorem dataset_returns_iff (lvl : string)
  (df_awards_i rows : list IndividualAwards.row)
  (df_awards : list Awards.row) (df_dems : list Dems.row) :
  filter_awards_i lvl df_awards_i = inr rows ->
  ((exists df_master,
      dataset lvl df_awards_i df_awards df_dems = inr df_master) <->
   (forall r, In r rows ->
      (exists a, In a df_awards /\
                 Awards.award_id a = IndividualAwards.award_id r) /\
      (forall a, In a df_awards ->
         Awards.award_id a = IndividualAwards.award_id r ->
         Awards.cohort a <> None))) /\
  (forall e, dataset lvl df_awards_i df_awards df_dems = inl e ->
             e = ValueError).
Proof.
  intros Hrows. split; [split|].
  - intros [t Ht] r Hr. split.
    + destruct (awards_of df_awards (select_columns r)) as [|a rest] eqn:E.
      * destruct (dataset_join_raises lvl df_awards_i rows df_awards df_dems
                    (Joined.mk (select_columns r) None) Hrows) as [Hd _];
          [|reflexivity|congruence].
        apply merge_awards_In. simpl. split; [now apply in_map|]. now left.
      * assert (Ha : In a (awards_of df_awards (select_columns r)))
          by (rewrite E; now left).
        apply awards_of_In in Ha. exists a. exact Ha.
    + intros a Ha Hid Hn.
      destruct (dataset_join_raises lvl df_awards_i rows df_awards df_dems
                  (Joined.mk (select_columns r) None) Hrows) as [Hd _];
        [|reflexivity|congruence].
      apply merge_awards_In. simpl. split; [now apply in_map|].
      right. exists a. split; [|now rewrite Hn].
      apply awards_of_In. now split.
  - intros H.
    destruct (astype_int_total
                (merge_awards (map select_columns rows) df_awards))
      as [cast Hcast].
    + apply Forall_forall. intros j Hj.
      apply merge_awards_In in Hj. destruct Hj as [Hb Hj].
      apply in_map_iff in Hb. destruct Hb as [r [Hb Hr]].
      destruct (H r Hr) as [[a0 [Ha0 Hid0]] Hall].
      destruct Hj as [[Hnil _]|[a [Ha Hc]]].
      * assert (Hin : In a0 (awards_of df_awards (Joined.base j))).
        { apply awards_of_In. rewrite <- Hb. now split. }
        rewrite Hnil in Hin. destruct Hin.
      * rewrite Hc. apply awards_of_In in Ha. destruct Ha as [Ha Hid].
        apply (Hall a Ha). rewrite Hid, <- Hb. reflexivity.
    + eexists. unfold dataset. rewrite Hrows. simpl.
      rewrite Hcast. reflexivity.
  - intros e He. unfold dataset in He. rewrite Hrows in He. simpl in He.
    destruct (astype_int (merge_awards (map select_columns rows) df_awards))
      as [e'|cast] eqn:Hc; simpl in He; [|discriminate].
    inversion He; subst e'.
    assert (Hall : forall df e0, astype_int df = inl e0 -> e0 = ValueError).
    { clear. induction df as [|y df IH]; simpl; intros e0 H; [discriminate|].
      destruct (Joined.cohort y); [|now inversion H].
      destruct (astype_int df) as [e1|out]; simpl in H; [|discriminate].
      inversion H; subst. now apply IH. }
    exact (Hall _ _ Hc).
Qed.

Lemma dataset_rows (lvl : string)
  (df_awards_i rows : list IndividualAwards.row)
  (df_awards : list Awards.row) (df_dems : list Dems.row)
  (df_master : list Master.row) :
  filter_awards_i lvl df_awards_i = inr rows ->
  dataset lvl df_awards_i df_awards df_dems = inr df_master ->
  forall r,
    In r df_master <->
    exists p a d c,
      In p rows /\
      In a df_awards /\
      Awards.award_id a = IndividualAwards.award_id p /\
      Awards.cohort a = Some c /\
      MIN <= c <= MAX /\
      In d df_dems /\
      Dems.person_id d = IndividualAwards.person_id p /\
      r = Master.mk (select_columns p) c (Dems.gender d).
Proof.
  intros Hrows Hd r. split.
  - intros Hr.
    destruct (dataset_In _ _ _ _ _ _ Hd Hr)
      as [rows' [p [a [d [Hrows' H]]]]].
    rewrite Hrows in Hrows'. inversion Hrows'; subst rows'.
    exists p, a, d, (Master.cohort r). tauto.
  - intros [p [a [d [c [Hp [Ha [Hid [Hc [Hrange [Hdm [Hpid ->]]]]]]]]]]].
    unfold dataset in Hd. rewrite Hrows in Hd. simpl in Hd.
    destruct (astype_int _) as [e|cast] eqn:E; simpl in Hd; [discriminate|].
    inversion Hd; subst df_master; clear Hd.
    apply merge_dems_In.
    exists (Joined.mk (select_columns p) c), d. simpl.
    split; [|tauto].
    apply filter_cohort_In. split; [|exact Hrange].
    destruct (astype_int_complete _ _
                (Joined.mk (select_columns p) (Some c)) E)
      as [c' [Hc' Hin]].
    + apply merge_awards_In. simpl. split; [now apply in_map|].
      right. exists a. split; [|now rewrite Hc].
      apply awards_of_In. now split.
    + simpl in Hc'. inversion Hc'; subst c'. exact Hin.
Qed.

(** X5. The rows of the working table are exactly the kept participation
    rows, extended by the cohort of an award record with the same award
    identifier, when that cohort lies in 1..9, and by the gender of a
    demographic record with the same person identifier: one row for every
    such pair of records. *)
Theorem working_table_rows (lvl : string)
  (df_awards_i rows : list IndividualAwards.row)
  (df_awards : list Awards.row) (df_dems : list Dems.row)
  (df_master : list Master.row) :
  filter_awards_i lvl df_awards_i = inr rows ->
  dataset lvl df_awards_i df_awards df_dems = inr df_master ->
  forall r,
    In r df_master <->
    exists p a d c,
      In p rows /\
      In a df_awards /\
      Awards.award_id a = IndividualAwards.award_id p /\
      Awards.cohort a = Some c /\
      MIN <= c <= MAX /\
      In d df_dems /\
      Dems.person_id d = IndividualAwards.person_id p /\
      r = Master.mk (select_columns p) c (Dems.gender d).
Proof. apply dataset_rows. Qed.

(** ** The inner join with the demographics (line 65) *)

(** X6. Every row of the working table takes its gender from a demographic
    record of its person, and a person without a demographic record has no
    row in the working table. *)
Theorem demographics_inner_join (lvl : string)
  (df_awards_i : list IndividualAwards.row) (df_awards : list Awards.row)
  (df_dems : list Dems.row) (df_master : list Master.row) :
  dataset lvl df_awards_i df_awards df_dems = inr df_master ->
  (forall r, In r df_master ->
     exists d, In d df_dems /\
               Dems.person_id d = Master.person_id r /\
               Dems.gender d = Master.gender r) /\
  (forall p, (forall d, In d df_dems -> Dems.person_id d <> p) ->
     forall r, In r df_master -> Master.person_id r <> p).
Proof.
  intros Hd.
  assert (H : forall r, In r df_master ->
            exists d, In d df_dems /\
                      Dems.person_id d = Master.person_id r /\
                      Dems.gender d = Master.gender r).
  { intros r Hr.
    destruct (dataset_In _ _ _ _ _ _ Hd Hr)
      as [rows [p [a [d [_ [_ [_ [_ [_ [_ [Hdm [Hpid Hrow]]]]]]]]]]]].
    exists d. rewrite Hrow. simpl. tauto. }
  split; [exact H|].
  intros p Hp r Hr Heq. destruct (H r Hr) as [d [Hdm [Hpid _]]].
  apply (Hp d Hdm). congruence.
Qed.

(** ** Counts per cohort (lines 73-74) *)

(** X8. In every cohort the rows counted as men and as women are at most
    the rows of the cohort, and they are all of them exactly when every row
    of the cohort has the gender "man" or "woman". *)
Theorem men_women_within_cohort (df_master : list Master.row) (cohort : Z) :
  get_q df_master cohort "man" + get_q df_master cohort "woman"
  <= rows_in_cohort df_master cohort /\
  (get_q df_master cohort "man" + get_q df_master cohort "woman"
   = rows_in_cohort df_master cohort <->
   forall r, In r df_master -> Master.cohort r = cohort ->
     Master.gender r = Some "man" \/ Master.gender r = Some "woman").
Proof.
  rewrite !get_q_eq. unfold rows_in_cohort.
  induction df_master as [|y t [IHle IHeq]]; cbn [filter List.length].
  - split; [lia|]. split; [intros _ r []|reflexivity].
  - destruct (Z.eqb_spec (Master.cohort y) cohort) as [Hc|Hc]; cbn [andb].
    + destruct (Master.gender y) as [g|] eqn:Eg; cbn [cell_eqb].
      * destruct (String.eqb_spec g "man") as [Hm|Hm];
          [|destruct (String.eqb_spec g "woman") as [Hw|Hw]].
        -- subst g. replace (String.eqb "man" "woman") with false
             by reflexivity.
           cbn [List.length]. split; [lia|]. split.
           ++ intros H r [<-|Hr] Hrc; [now left|].
              apply IHeq; [lia | exact Hr | exact Hrc].
           ++ intros H.
              pose proof (proj2 IHeq (fun r Hr => H r (or_intror Hr))) as E.
              lia.
        -- subst g. cbn [List.length]. split; [lia|]. split.
           ++ intros H r [<-|Hr] Hrc; [now right|].
              apply IHeq; [lia | exact Hr | exact Hrc].
           ++ intros H.
              pose proof (proj2 IHeq (fun r Hr => H r (or_intror Hr))) as E.
              lia.
        -- cbn [List.length]. split; [lia|]. split; [lia|].
           intros H. destruct (H y (or_introl eq_refl) Hc); congruence.
      * cbn [List.length]. split; [lia|]. split; [lia|].
        intros H. destruct (H y (or_introl eq_refl) Hc); congruence.
    + split; [exact IHle|]. rewrite IHeq. split.
      * intros H r [<-|Hr] Hrc; [contradiction | now apply H].
      * intros H r Hr. apply H. now right.
Qed.

(** ** The bars (lines 100-132) *)

Lemma round_half_even_percent (part whole : Z) :
  0 <= part <= whole -> 0 < whole ->
  0 <= round_half_even (part * 100) whole <= 100.
Proof.
  intros Hp Hw.
  destruct (round_half_even_is_round (part * 100) whole) as [H _]; [lia|].
  set (k := round_half_even (part * 100) whole) in *.
  rewrite (Z.abs_eq whole) in H by lia.
  assert (H1 : 2 * (part * 100 - k * whole) <= whole) by lia.
  assert (H2 : - whole <= 2 * (part * 100 - k * whole)) by lia.
  split; nia.
Qed.

Lemma percent_bounds (part whole : Z) :
  0 <= part <= whole -> 0 <= percent part whole <= 100.
Proof.
  intros H. unfold percent.
  destruct (Z.eqb_spec whole 0); [lia|].
  apply round_half_even_percent; lia.
Qed.

Lemma percent_complement (a b : Z) :
  a + b <> 0 -> percent a (a + b) + percent b (a + b) = 100.
Proof.
  intros H. unfold percent.
  destruct (Z.eqb_spec (a + b) 0); [contradiction|].
  now apply round_complement.
Qed.

(** What [get_vals] and [plot_bar] draw for a cohort of the summary. *)
Lemma get_vals_bar (df_master : list Master.row) (cs : list Z) (c i : Z)
  (cum_sums : list Z) :
  In c cs ->
  exists values,
    runStateT (get_vals (map (q_row df_master) cs) c) cum_sums =
    inr (values,
         (cum_sums ++ [get_q df_master c "man"
                       + get_q df_master c "woman"])%list) /\
    plot_bar i values = bar_of df_master i c.
Proof.
  intros Hc. pose proof (find_q_row df_master cs c Hc) as Hf.
  pose proof (get_q_nonneg df_master c "man") as Hm.
  pose proof (get_q_nonneg df_master c "woman") as Hw.
  unfold bar_of, percent.
  destruct (Z.eqb_spec (get_q df_master c "man"
                        + get_q df_master c "woman") 0) as [Hs|Hs].
  - exists [0; 0; 0; 0]. split.
    + rewrite (get_vals_zero _ _ _ _ Hf Hs). simpl. now rewrite Hs.
    + replace (get_q df_master c "man") with 0 by lia.
      replace (get_q df_master c "woman") with 0 by lia. reflexivity.
  - eexists. split.
    + now apply (get_vals_nonzero _ _ _ _ Hf).
    + reflexivity.
Qed.

(** The positions [start, start + 1, ...] of [n] bars. *)
Lemma arange_unit (start : Z) (n : nat) :
  arange start (start + Z.of_nat n) 1
  = map (fun k => start + Z.of_nat k) (seq 0 n).
Proof.
  unfold arange.
  replace (start + Z.of_nat n - start + 1 - 1) with (Z.of_nat n) by lia.
  rewrite Z.div_1_r, Nat2Z.id.
  apply map_ext. intros k. lia.
Qed.

Lemma arange_unit_succ (start : Z) (n : nat) :
  arange start (start + Z.of_nat (S n)) 1
  = start :: arange (start + 1) (start + 1 + Z.of_nat n) 1.
Proof.
  rewrite !arange_unit. cbn [seq map].
  rewrite <- seq_shift, map_map. f_equal; [lia|].
  apply map_ext. intros k. lia.
Qed.

Lemma plot_bars_bars (df_master : list Master.row) (cs0 cs : list Z) :
  incl cs cs0 ->
  forall i cum_sums,
    runStateT (plot_bars (map (q_row df_master) cs0) i cs) cum_sums =
    inr (flat_map (fun p => bar_of df_master (fst p) (snd p))
           (combine (arange i (i + Z.of_nat (List.length cs)) 1) cs),
         (cum_sums ++
          map (fun c => get_q df_master c "man" + get_q df_master c "woman")
            cs)%list).
Proof.
  induction cs as [|c cs IH]; intros Hincl i cum_sums.
  - rewrite arange_unit. simpl. now rewrite app_nil_r.
  - rewrite plot_bars_cons.
    destruct (get_vals_bar df_master cs0 c i cum_sums) as [values [E Hb]];
      [apply Hincl; now left|].
    rewrite E, (IH (fun y Hy => Hincl y (or_intror Hy))).
    cbn [List.length]. rewrite arange_unit_succ.
    cbn [combine flat_map fst snd map]. rewrite Hb, <- app_assoc.
    reflexivity.
Qed.

Lemma x_length (cs : list Z) : List.length (x cs) = List.length cs.
Proof.
  unfold x, NUM_X.
  replace (Z.of_nat (List.length cs) + 1)
    with (1 + Z.of_nat (List.length cs)) by lia.
  now rewrite arange_unit, length_map, length_seq.
Qed.

Lemma visualization_eq (lvl : string) (df_master : list Master.row) :
  visualization lvl df_master =
  inr (mk_figure
         (flat_map (fun p => bar_of df_master (fst p) (snd p))
            (combine (x (cohorts df_master)) (cohorts df_master)))
         (TITLE lvl ++ " (n=" ++ str (men_and_women df_master) ++ ")")
         (cohorts df_master)).
Proof.
  unfold visualization. rewrite build_df_q_eq.
  rewrite (plot_bars_bars df_master (cohorts df_master)
             (cohorts df_master) (incl_refl _) 1 []).
  simpl. unfold total, x, NUM_X. rewrite py_sum_eq.
  replace (Z.of_nat (List.length (cohorts df_master)) + 1)
    with (1 + Z.of_nat (List.length (cohorts df_master))) by lia.
  reflexivity.
Qed.

(** X10. The figure of a working table, in full: for the k-th cohort in
    ascending order, two segments at position k, the men's from 0 and the
    women's on top of it, each as high as its percentage and labelled with
    its count; the title with the number of men and women; the cohorts as
    tick labels, at the positions of their bars. *)
Theorem figure_of_working_table (lvl : string)
  (df_master : list Master.row) :
  visualization lvl df_master =
  inr (mk_figure
         (flat_map (fun p => bar_of df_master (fst p) (snd p))
            (combine (x (cohorts df_master)) (cohorts df_master)))
         (TITLE lvl ++ " (n=" ++ str (men_and_women df_master) ++ ")")
         (cohorts df_master)) /\
  List.length (x (cohorts df_master)) = List.length (cohorts df_master).
Proof. split; [apply visualization_eq | apply x_length]. Qed.

Lemma combine_In_r {A B : Type} (l1 : list A) (l2 : list B) (b : B) :
  List.length l1 = List.length l2 -> In b l2 ->
  exists a, In (a, b) (combine l1 l2).
Proof.
  revert l2. induction l1 as [|a l1 IH]; intros [|b' l2] Hl Hb;
    simpl in *; try tauto; try discriminate.
  destruct Hb as [->|Hb].
  - exists a. now left.
  - destruct (IH l2) as [a' Ha']; [lia | exact Hb |].
    exists a'. now right.
Qed.

Lemma get_q_le_sum (df_master : list Master.row) (c : Z) :
  0 <= get_q df_master c "man"
     <= get_q df_master c "man" + get_q df_master c "woman" /\
  0 <= get_q df_master c "woman"
     <= get_q df_master c "man" + get_q df_master c "woman".
Proof.
  pose proof (get_q_nonneg df_master c "man").
  pose proof (get_q_nonneg df_master c "woman"). lia.
Qed.

(** A cohort with a counted row is a cohort of the summary. *)
Lemma get_q_cohort (df_master : list Master.row) (c : Z) (g : string) :
  get_q df_master c g <> 0 -> In c (cohorts df_master).
Proof.
  rewrite get_q_eq. intros H. apply cohorts_In.
  destruct (filter (fun r => (Master.cohort r =? c)
                             && cell_eqb (Master.gender r) g) df_master)
    as [|r rest] eqn:E; [now destruct H|].
  assert (Hr : In r (r :: rest)) by now left.
  rewrite <- E in Hr. apply filter_In in Hr. destruct Hr as [Hr Hb].
  apply andb_true_iff in Hb. destruct Hb as [Hb _].
  exists r. split; [exact Hr | now apply Z.eqb_eq].
Qed.

(** X9. Every segment drawn lies between 0 and 100 and carries a count that
    is not negative; and the bar of a cohort with at least one man or woman
    reaches exactly 100: its first segment starts at 0 and its second one
    starts where the first ends. *)
Theorem segments_fill_the_axis (lvl : string)
  (df_master : list Master.row) (fig : figure) :
  visualization lvl df_master = inr fig ->
  (forall s, In s (fig_bars fig) ->
     0 <= seg_bottom s /\ 0 <= seg_perc s /\
     seg_bottom s + seg_perc s <= 100 /\ 0 <= seg_raw s) /\
  (forall c,
     get_q df_master c "man" + get_q df_master c "woman" <> 0 ->
     exists i men_perc women_perc,
       In (mk_segment i men_perc 0 "#1A85FF" (get_q df_master c "man"))
          (fig_bars fig) /\
       In (mk_segment i women_perc men_perc "#D41159"
             (get_q df_master c "woman")) (fig_bars fig) /\
       men_perc + women_perc = 100).
Proof.
  rewrite visualization_eq. intros H. inversion H; subst fig; clear H.
  cbn [fig_bars]. split.
  - intros s Hs. apply in_flat_map in Hs. destruct Hs as [[i c] [_ Hs]].
    cbn [fst snd] in Hs. unfold bar_of in Hs.
    destruct (get_q_le_sum df_master c) as [Hm Hw].
    pose proof (percent_bounds _ _ Hm) as Pm.
    pose proof (percent_bounds _ _ Hw) as Pw.
    destruct (Z.eq_dec (get_q df_master c "man"
                        + get_q df_master c "woman") 0) as [Hz|Hz].
    + assert (E : forall a, percent a (get_q df_master c "man"
                                       + get_q df_master c "woman") = 0)
        by (intros a; unfold percent; now rewrite Hz).
      destruct Hs as [<-|[<-|[]]]; cbn; rewrite ?E; lia.
    + pose proof (percent_complement _ _ Hz) as Pc.
      destruct Hs as [<-|[<-|[]]]; cbn; lia.
  - intros c Hz.
    assert (Hc : In c (cohorts df_master)).
    { destruct (get_q_le_sum df_master c) as [Hm Hw].
      destruct (Z.eq_dec (get_q df_master c "man") 0) as [E|E];
        [apply (get_q_cohort df_master c "woman") |
         apply (get_q_cohort df_master c "man")]; lia. }
    destruct (combine_In_r (x (cohorts df_master)) (cohorts df_master) c
                (x_length _) Hc) as [i Hi].
    exists i, (percent (get_q df_master c "man")
                 (get_q df_master c "man" + get_q df_master c "woman")),
      (percent (get_q df_master c "woman")
         (get_q df_master c "man" + get_q df_master c "woman")).
    split; [|split].
    + apply in_flat_map. exists (i, c). split; [exact Hi|]. now left.
    + apply in_flat_map. exists (i, c). split; [exact Hi|]. right. now left.
    + now apply percent_complement.
Qed.

(** ** The size of the chart *)

Lemma Sorted_lt_length (l : list Z) (lo hi : Z) :
  Sorted Z.lt l -> (forall c, In c l -> lo <= c <= hi) ->
  Z.of_nat (List.length l) <= Z.max 0 (hi - lo + 1).
Proof.
  intros Hs. apply Sorted_StronglySorted in Hs;
    [|intros a b c; apply Z.lt_trans].
  revert lo. induction Hs as [|a l Hs IH Ha]; intros lo Hr.
  - simpl. lia.
  - assert (Hlo : lo <= a <= hi) by (apply Hr; now left).
    assert (Hl : Z.of_nat (List.length l) <= Z.max 0 (hi - (a + 1) + 1)).
    { apply IH. intros c Hc. rewrite Forall_forall in Ha.
      specialize (Ha c Hc). specialize (Hr c (or_intror Hc)). lia. }
    cbn [List.length]. lia.
Qed.

Lemma flat_map_length_two {A B : Type} (f : A -> list B) (l : list A) :
  (forall a, List.length (f a) = 2%nat) ->
  List.length (flat_map f l) = (2 * List.length l)%nat.
Proof.
  intros Hf. induction l as [|a l IH]; simpl; [reflexivity|].
  rewrite length_app, Hf, IH. lia.
Qed.

Lemma script_inr (lvl : string) (df_awards_i : list IndividualAwards.row)
  (df_awards : list Awards.row) (df_dems : list Dems.row) (fig : figure) :
  script lvl df_awards_i df_awards df_dems = inr fig ->
  exists df_master,
    dataset lvl df_awards_i df_awards df_dems = inr df_master /\
    visualization lvl df_master = inr fig.
Proof.
  unfold script. intros H.
  destruct (dataset lvl df_awards_i df_awards df_dems) as [e|t];
    simpl in H; [discriminate|].
  now exists t.
Qed.

(** X13. A figure the run writes has at most nine bars: its tick labels are
    cohorts between 1 and 9 in strictly ascending order, and it has two
    segments for each of them. *)
Theorem at_most_nine_bars (lvl : string)
  (df_awards_i : list IndividualAwards.row) (df_awards : list Awards.row)
  (df_dems : list Dems.row) (fig : figure) :
  script lvl df_awards_i df_awards df_dems = inr fig ->
  Sorted Z.lt (fig_xticks fig) /\
  (forall c, In c (fig_xticks fig) -> 1 <= c <= 9) /\
  (List.length (fig_xticks fig) <= 9)%nat /\
  List.length (fig_bars fig) = (2 * List.length (fig_xticks fig))%nat.
Proof.
  intros H. destruct (script_inr _ _ _ _ _ H) as [t [Hd Hv]].
  rewrite visualization_eq in Hv. inversion Hv; subst fig; clear Hv.
  cbn [fig_xticks fig_bars].
  assert (Hr : forall c, In c (cohorts t) -> 1 <= c <= 9).
  { intros c Hc. apply cohorts_In in Hc. destruct Hc as [r [Hr <-]].
    destruct (dataset_In _ _ _ _ _ _ Hd Hr)
      as [rows [p [a [d [_ [_ [_ [_ [_ [Hrange _]]]]]]]]]].
    exact Hrange. }
  split; [apply cohorts_ascending|]. split; [exact Hr|]. split.
  - pose proof (Sorted_lt_length _ 1 9 (cohorts_ascending t) Hr). lia.
  - rewrite flat_map_length_two by reflexivity.
    rewrite length_combine, x_length. lia.
Qed.


(** ** Missing values (lines 77-78) *)

(** X11. [no_nans] keeps every integer, so line 82 removes no cohort; of
    the gender cells it keeps the texts other than "nan", so line 86 removes
    the missing value and a value spelled nan alike. *)
Theorem no_nans_keeps :
  (forall z : Z, no_nans z = true) /\
  (forall df_master,
     cohorts df_master
     = sorted Z.leb (unique Z.eq_dec (map Master.cohort df_master))) /\
  (forall c : option string,
     no_nans c = true <-> exists s, c = Some s /\ s <> "nan").
Proof.
  split; [exact no_nans_Z|]. split.
  - intros t. unfold cohorts. rewrite filter_all; [reflexivity|].
    intros z _. apply no_nans_Z.
  - intros [s|]; unfold no_nans; simpl.
    + rewrite negb_true_iff, String.eqb_neq. split.
      * intros H. now exists s.
      * intros [s' [E H]]. inversion E; subst. exact H.
    + split; [discriminate|]. intros [s [E _]]. discriminate.
Qed.

(** ** Deduplicating twice *)

Section Refinement.
Context {A K1 K2 : Type}.
Context (K1_dec : forall a b : K1, {a = b} + {a <> b}).
Context (K2_dec : forall a b : K2, {a = b} + {a <> b}).
Context (key1 : A -> K1) (key2 : A -> K2).
Hypothesis refines : forall a b, key2 a = key2 b -> key1 a = key1 b.

(** Dropping the duplicates of a finer key first changes nothing for a
    coarser key. *)
Lemma drop_duplicates_from_refine (s1 : list K1) (s2 : list K2)
  (df : list A) :
  (forall a, In (key2 a) s2 -> In (key1 a) s1) ->
  drop_duplicates_from K1_dec key1 s1
    (drop_duplicates_from K2_dec key2 s2 df)
  = drop_duplicates_from K1_dec key1 s1 df.
Proof.
  revert s1 s2. induction df as [|y df IH]; intros s1 s2 Hs;
    [reflexivity|].
  cbn [drop_duplicates_from].
  destruct (in_dec K2_dec (key2 y) s2) as [H2|H2].
  - destruct (in_dec K1_dec (key1 y) s1) as [H1|H1].
    + now apply IH.
    + destruct H1. now apply Hs.
  - cbn [drop_duplicates_from].
    destruct (in_dec K1_dec (key1 y) s1) as [H1|H1].
    + apply IH. intros a [Ha|Ha]; [|now apply Hs].
      now rewrite <- (refines _ _ Ha).
    + f_equal. apply IH. intros a [Ha|Ha].
      * left. now apply refines.
      * right. now apply Hs.
Qed.

Lemma drop_duplicates_refine (df : list A) :
  drop_duplicates K1_dec key1 (drop_duplicates K2_dec key2 df)
  = drop_duplicates K1_dec key1 df.
Proof. apply drop_duplicates_from_refine. intros a []. Qed.
End Refinement.

Lemma level_cols_refines (lvl : string) (a b : IndividualAwards.row) :
  level_cols lvl a = level_cols lvl b ->
  level_cols "person" a = level_cols "person" b.
Proof.
  unfold level_cols. simpl.
  destruct (String.eqb lvl "person"); intros H; inversion H; congruence.
Qed.

Lemma kept_rows_person_incl (lvl : string)
  (df_awards_i : list IndividualAwards.row) (r : IndividualAwards.row) :
  In r (kept_rows "person" df_awards_i) -> In r (kept_rows lvl df_awards_i).
Proof.
  unfold kept_rows. intros H.
  rewrite <- (drop_duplicates_refine (list_eq_dec string_dec)
                (list_eq_dec string_dec) (level_cols "person")
                (level_cols lvl) (level_cols_refines lvl)) in H.
  now apply drop_duplicates_In in H.
Qed.

(** X12. Deduplicating at any level and then by person gives what
    deduplicating by person alone gives, and deduplicating twice at one
    level gives what once gives. *)
Theorem deduplication_composes (lvl : string)
  (df : list IndividualAwards.row) :
  drop_duplicates (list_eq_dec string_dec) (level_cols "person")
    (drop_duplicates (list_eq_dec string_dec) (level_cols lvl) df)
  = drop_duplicates (list_eq_dec string_dec) (level_cols "person") df /\
  drop_duplicates (list_eq_dec string_dec) (level_cols lvl)
    (drop_duplicates (list_eq_dec string_dec) (level_cols lvl) df)
  = drop_duplicates (list_eq_dec string_dec) (level_cols lvl) df.
Proof.
  split.
  - apply drop_duplicates_refine, level_cols_refines.
  - apply drop_duplicates_refine. tauto.
Qed.

(** ** The order of the working table *)

Lemma Permutation_filter_length {A : Type} (f : A -> bool)
  (l1 l2 : list A) :
  Permutation l1 l2 ->
  List.length (filter f l1) = List.length (filter f l2).
Proof.
  induction 1 as [|a l1 l2 _ IH|a b l|l1 l2 l3 _ IH1 _ IH2]; simpl.
  - reflexivity.
  - destruct (f a); simpl; now rewrite IH.
  - destruct (f a), (f b); reflexivity.
  - now rewrite IH1.
Qed.

Lemma get_q_Permutation (t1 t2 : list Master.row) (c : Z) (g : string) :
  Permutation t1 t2 -> get_q t1 c g = get_q t2 c g.
Proof.
  intros H. rewrite !get_q_eq.
  now rewrite (Permutation_filter_length _ _ _ H).
Qed.

(** Two strictly ascending lists with the same members are equal. *)
Lemma Sorted_lt_ext (l1 l2 : list Z) :
  Sorted Z.lt l1 -> Sorted Z.lt l2 ->
  (forall c, In c l1 <-> In c l2) -> l1 = l2.
Proof.
  intros H1 H2.
  apply Sorted_StronglySorted in H1; [|intros a b c; apply Z.lt_trans].
  apply Sorted_StronglySorted in H2; [|intros a b c; apply Z.lt_trans].
  revert l2 H2. induction H1 as [|a l1 Hs1 IH Ha]; intros l2 H2 Hm.
  - destruct l2 as [|b l2]; [reflexivity|].
    destruct (proj2 (Hm b) (or_introl eq_refl)).
  - destruct H2 as [|b l2 Hs2 Hb].
    + destruct (proj1 (Hm a) (or_introl eq_refl)).
    + rewrite Forall_forall in Ha, Hb.
      assert (Hab : a = b).
      { destruct (proj1 (Hm a) (or_introl eq_refl)) as [E|E];
          [now symmetry|].
        destruct (proj2 (Hm b) (or_introl eq_refl)) as [E'|E'];
          [exact E'|].
        specialize (Ha b E'). specialize (Hb a E). lia. }
      subst b. f_equal. apply IH; [exact Hs2|].
      intros c. split; intros Hc.
      * destruct (proj1 (Hm c) (or_intror Hc)) as [E|E]; [|exact E].
        specialize (Ha c Hc). lia.
      * destruct (proj2 (Hm c) (or_intror Hc)) as [E|E]; [|exact E].
        specialize (Hb c Hc). lia.
Qed.

Lemma cohorts_Permutation (t1 t2 : list Master.row) :
  Permutation t1 t2 -> cohorts t1 = cohorts t2.
Proof.
  intros H. apply Sorted_lt_ext; try apply cohorts_ascending.
  intros c. rewrite !cohorts_In. split; intros [r [Hr Hc]]; exists r.
  - split; [now apply (Permutation_in _ H) | exact Hc].
  - split; [now apply (Permutation_in _ (Permutation_sym H)) | exact Hc].
Qed.

(** X14. The figure does not depend on the order of the rows of the working
    table: two working tables with the same rows in any order give the same
    figure. *)
Theorem figure_ignores_row_order (lvl : string)
  (t1 t2 : list Master.row) :
  Permutation t1 t2 -> visualization lvl t1 = visualization lvl t2.
Proof.
  intros H. rewrite !visualization_eq.
  unfold men_and_women. rewrite (cohorts_Permutation _ _ H).
  assert (Hq : forall c g, get_q t1 c g = get_q t2 c g)
    by (intros c g; now apply get_q_Permutation).
  f_equal. f_equal.
  - apply flat_map_ext. intros [i c]. unfold bar_of. cbn [fst snd].
    now rewrite !Hq.
  - rewrite (map_ext _
               (fun c => get_q t2 c "man" + get_q t2 c "woman"));
      [reflexivity|].
    intros c. now rewrite !Hq.
Qed.

(** ** Person level against the other levels *)

Lemma astype_int_cohorts (df : list (Joined.row (option Z)))
  (out : list (Joined.row Z)) :
  astype_int df = inr out ->
  Forall (fun j => Joined.cohort j <> None) df.
Proof.
  intros H. apply Forall_forall. intros j Hj.
  destruct (astype_int_complete _ _ _ H Hj) as [c [Hc _]]. congruence.
Qed.

Lemma merge_awards_incl (m1 m2 : list Selected.row)
  (df_awards : list Awards.row) (j : Joined.row (option Z)) :
  incl m1 m2 ->
  In j (merge_awards m1 df_awards) -> In j (merge_awards m2 df_awards).
Proof.
  intros Hi Hj. apply merge_awards_In in Hj. apply merge_awards_In.
  destruct Hj as [Hb Hj]. split; [now apply Hi | exact Hj].
Qed.

(** X16. A run that returns a working table at some level also returns one
    at person level, and every row of the person-level table is a row of the
    other one. *)
Theorem person_level_within_level (lvl : string)
  (df_awards_i : list IndividualAwards.row) (df_awards : list Awards.row)
  (df_dems : list Dems.row) (df_master : list Master.row) :
  dataset lvl df_awards_i df_awards df_dems = inr df_master ->
  exists df_person,
    dataset "person" df_awards_i df_awards df_dems = inr df_person /\
    forall r, In r df_person -> In r df_master.
Proof.
  intros Hd.
  destruct (filter_awards_i lvl df_awards_i) as [e|rows] eqn:Hrows;
    [unfold dataset in Hd; rewrite Hrows in Hd; discriminate|].
  destruct (filter_awards_i_kept _ _ _ Hrows) as [-> Hroles].
  pose proof (filter_awards_i_eq "person" df_awards_i Hroles) as Hp.
  assert (Hincl : incl (map select_columns (kept_rows "person" df_awards_i))
                    (map select_columns (kept_rows lvl df_awards_i))).
  { intros s Hs. apply in_map_iff in Hs. destruct Hs as [r [<- Hr]].
    apply in_map. now apply kept_rows_person_incl. }
  destruct (astype_int
              (merge_awards (map select_columns (kept_rows lvl df_awards_i))
                 df_awards)) as [e|cast] eqn:Hcast;
    [unfold dataset in Hd; rewrite Hrows in Hd; simpl in Hd;
     rewrite Hcast in Hd; discriminate|].
  destruct (astype_int_total
              (merge_awards
                 (map select_columns (kept_rows "person" df_awards_i))
                 df_awards)) as [cast_p Hcast_p].
  { apply Forall_forall. intros j Hj.
    apply (merge_awards_incl _ _ _ _ Hincl) in Hj.
    pose proof (astype_int_cohorts _ _ Hcast) as HF.
    rewrite Forall_forall in HF. now apply HF. }
  assert (Hdp : dataset "person" df_awards_i df_awards df_dems
                = inr (merge_dems (filter_cohort cast_p) df_dems)).
  { unfold dataset. rewrite Hp. simpl. now rewrite Hcast_p. }
  eexists. split; [exact Hdp|].
  intros r Hr.
  apply (dataset_rows _ _ _ _ _ _ Hp Hdp) in Hr.
  destruct Hr as [p [a [d [c [Hin H]]]]].
  apply (dataset_rows _ _ _ _ _ _ Hrows Hd).
  exists p, a, d, c. split; [now apply kept_rows_person_incl | exact H].
Qed.

(** ** One row per person *)

Lemma filter_key_unique {A : Type} (k : A -> string) (l : list A)
  (v : string) :
  NoDup (map k l) ->
  (List.length (filter (fun a => String.eqb (k a) v) l) <= 1)%nat.
Proof.
  induction l as [|a l IH]; simpl; intros Hn; [lia|].
  inversion Hn as [|? ? Hnot Hn']; subst.
  destruct (String.eqb_spec (k a) v) as [E|E]; [|now apply IH].
  simpl. rewrite (proj2 (List.length_zero_iff_nil _)); [lia|].
  destruct (filter _ l) as [|b rest] eqn:Ef; [reflexivity|].
  assert (Hb : In b (filter (fun a => String.eqb (k a) v) l))
    by (rewrite Ef; now left).
  apply filter_In in Hb. destruct Hb as [Hb Hk].
  apply String.eqb_eq in Hk. destruct Hnot.
  rewrite E, <- Hk. now apply in_map.
Qed.

Section KeysOfJoin.
Context {A B K : Type} (g : A -> list B) (f : B -> K) (h : A -> K).

(** A join that gives each left row at most one row keeps keys distinct. *)
Lemma flat_map_keys (l : list A) :
  (forall a, In a l -> map f (g a) = [] \/ map f (g a) = [h a]) ->
  NoDup (map h l) ->
  NoDup (map f (flat_map g l)) /\
  (forall k, In k (map f (flat_map g l)) -> In k (map h l)).
Proof.
  induction l as [|a l IH]; intros Hg Hn; simpl.
  - split; [constructor | tauto].
  - inversion Hn as [|? ? Hnot Hn']; subst.
    destruct IH as [IH1 IH2]; [intros b Hb; apply Hg; now right | exact Hn'|].
    rewrite map_app.
    destruct (Hg a (or_introl eq_refl)) as [E|E]; rewrite E; simpl.
    + split; [exact IH1|]. intros k Hk. right. now apply IH2.
    + split.
      * constructor; [|exact IH1]. intros Hk. apply Hnot. now apply IH2.
      * intros k [Hk|Hk]; [now left|]. right. now apply IH2.
Qed.
End KeysOfJoin.

Lemma NoDup_map_filter {A K : Type} (f : A -> K) (p : A -> bool)
  (l : list A) :
  NoDup (map f l) -> NoDup (map f (filter p l)).
Proof.
  induction l as [|a l IH]; simpl; intros Hn; [constructor|].
  inversion Hn as [|? ? Hnot Hn']; subst.
  destruct (p a); simpl; [|now apply IH].
  constructor; [|now apply IH].
  intros Hin. apply Hnot. apply in_map_iff in Hin.
  destruct Hin as [b [Hb Hin]]. apply filter_In in Hin.
  rewrite <- Hb. apply in_map. tauto.
Qed.

Lemma astype_int_base (df : list (Joined.row (option Z)))
  (out : list (Joined.row Z)) :
  astype_int df = inr out ->
  map Joined.base out = map Joined.base df.
Proof.
  revert out. induction df as [|y df IH]; simpl; intros out H.
  - now inversion H.
  - destruct (Joined.cohort y); [|discriminate].
    destruct (astype_int df) as [e|out'] eqn:E; simpl in H; [discriminate|].
    inversion H; subst out. simpl. now rewrite (IH out').
Qed.

(** X7. When no two award records share an award identifier and no two
    demographic records share a person identifier, the person-level working
    table holds every person at most once. *)
Theorem one_row_per_person (df_awards_i : list IndividualAwards.row)
  (df_awards : list Awards.row) (df_dems : list Dems.row)
  (df_master : list Master.row) :
  NoDup (map Awards.award_id df_awards) ->
  NoDup (map Dems.person_id df_dems) ->
  dataset "person" df_awards_i df_awards df_dems = inr df_master ->
  NoDup (map Master.person_id df_master).
Proof.
  intros Ha Hdm Hd. unfold dataset in Hd.
  destruct (filter_awards_i "person" df_awards_i) as [e|rows] eqn:Hrows;
    simpl in Hd; [discriminate|].
  destruct (astype_int _) as [e|cast] eqn:Hcast; simpl in Hd;
    [discriminate|].
  inversion Hd; subst df_master; clear Hd.
  destruct (filter_awards_i_kept _ _ _ Hrows) as [-> _].
  assert (H0 : NoDup (map Selected.person_id
                        (map select_columns
                           (kept_rows "person" df_awards_i)))).
  { rewrite map_map. simpl.
    apply (NoDup_map_compose _ (fun p => [p])).
    apply (drop_duplicates_NoDup _ (level_cols "person")). }
  set (rows := map select_columns (kept_rows "person" df_awards_i)) in *.
  assert (H1 : NoDup (map (fun j => Selected.person_id (Joined.base j))
                        (merge_awards rows df_awards))).
  { apply (flat_map_keys _ _ Selected.person_id); [|exact H0].
    intros l _.
    pose proof (filter_key_unique Awards.award_id df_awards
                  (Selected.award_id l) Ha) as Hlen.
    fold (awards_of df_awards l) in Hlen.
    destruct (awards_of df_awards l) as [|a [|a' rest]]; simpl in *;
      [now right | now right | lia]. }
  assert (H2 : NoDup (map (fun j => Selected.person_id (Joined.base j))
                        cast)).
  { rewrite <- (map_map Joined.base Selected.person_id).
    rewrite (astype_int_base _ _ Hcast), map_map. exact H1. }
  apply (flat_map_keys _ _
           (fun j => Selected.person_id (Joined.base j))).
  - intros j _.
    pose proof (filter_key_unique Dems.person_id df_dems
                  (Selected.person_id (Joined.base j)) Hdm) as Hlen.
    fold (dems_of df_dems j) in Hlen.
    destruct (dems_of df_dems j) as [|d [|d' rest]]; simpl in *;
      [now left | now right | lia].
  - rewrite filter_cohort_eq. now apply NoDup_map_filter.
Qed.

(** * The further properties at concrete inputs *)


Lemma missing_cohort_ends_run_witness :
  filter_awards_i level ex_awards_i = inr ex_filtered /\
  dataset level ex_awards_i ex_missing_cohort_awards ex_dems
  = inl ValueError /\
  script level ex_awards_i ex_missing_cohort_awards ex_dems
  = inl ValueError.
Proof.
  split; [reflexivity|].
  apply (missing_cohort_ends_run level ex_awards_i ex_filtered
           ex_missing_cohort_awards ex_dems
           (IndividualAwards.mk "P1" "A1" (Some "it")
              (Some "co-investigator") 2015)
           (Awards.mk "A1" None) eq_refl).
  - simpl. tauto.
  - simpl. tauto.
  - reflexivity.
  - reflexivity.
Defined.

Lemma dataset_returns_iff_witness :
  filter_awards_i level ex_awards_i = inr ex_filtered /\
  ((exists df_master,
      dataset level ex_awards_i ex_awards ex_dems = inr df_master) <->
   (forall r, In r ex_filtered ->
      (exists a, In a ex_awards /\
                 Awards.award_id a = IndividualAwards.award_id r) /\
      (forall a, In a ex_awards ->
         Awards.award_id a = IndividualAwards.award_id r ->
         Awards.cohort a <> None))) /\
  (forall e, dataset level ex_awards_i ex_awards ex_dems = inl e ->
             e = ValueError).
Proof.
  split; [reflexivity|].
  exact (dataset_returns_iff level ex_awards_i ex_filtered ex_awards ex_dems
           eq_refl).
Defined.

Lemma working_table_rows_witness :
  filter_awards_i level ex_awards_i = inr ex_filtered /\
  dataset level ex_awards_i ex_awards ex_dems = inr ex_master /\
  forall r,
    In r ex_master <->
    exists p a d c,
      In p ex_filtered /\
      In a ex_awards /\
      Awards.award_id a = IndividualAwards.award_id p /\
      Awards.cohort a = Some c /\
      MIN <= c <= MAX /\
      In d ex_dems /\
      Dems.person_id d = IndividualAwards.person_id p /\
      r = Master.mk (select_columns p) c (Dems.gender d).
Proof.
  split; [reflexivity|]. split; [reflexivity|].
  exact (working_table_rows level ex_awards_i ex_filtered ex_awards ex_dems
           ex_master eq_refl eq_refl).
Defined.

Lemma demographics_inner_join_witness :
  dataset level ex_awards_i ex_awards ex_dems = inr ex_master /\
  (forall r, In r ex_master ->
     exists d, In d ex_dems /\
               Dems.person_id d = Master.person_id r /\
               Dems.gender d = Master.gender r) /\
  (forall p, (forall d, In d ex_dems -> Dems.person_id d <> p) ->
     forall r, In r ex_master -> Master.person_id r <> p).
Proof.
  split; [reflexivity|].
  exact (demographics_inner_join level ex_awards_i ex_awards ex_dems
           ex_master eq_refl).
Defined.

Lemma one_row_per_person_witness :
  dataset "person" ex_repeat_awards_i ex_repeat_awards ex_dems
  = inr [ Master.mk (Selected.mk "P2" "A1" 2015 (Some "advisor")) 2
            (Some "woman") ] /\
  NoDup (map Master.person_id
           [ Master.mk (Selected.mk "P2" "A1" 2015 (Some "advisor")) 2
               (Some "woman") ]).
Proof.
  split; [reflexivity|].
  apply (one_row_per_person ex_repeat_awards_i ex_repeat_awards ex_dems).
  - repeat constructor; simpl; intuition discriminate.
  - repeat constructor; simpl; intuition discriminate.
  - reflexivity.
Defined.

Lemma segments_fill_the_axis_witness :
  exists fig,
    visualization level ex_three_genders = inr fig /\
    (forall s, In s (fig_bars fig) ->
       0 <= seg_bottom s /\ 0 <= seg_perc s /\
       seg_bottom s + seg_perc s <= 100 /\ 0 <= seg_raw s) /\
    (forall c,
       get_q ex_three_genders c "man" + get_q ex_three_genders c "woman"
       <> 0 ->
       exists i men_perc women_perc,
         In (mk_segment i men_perc 0 "#1A85FF"
               (get_q ex_three_genders c "man")) (fig_bars fig) /\
         In (mk_segment i women_perc men_perc "#D41159"
               (get_q ex_three_genders c "woman")) (fig_bars fig) /\
         men_perc + women_perc = 100).
Proof.
  eexists. split; [reflexivity|].
  exact (segments_fill_the_axis level ex_three_genders _ eq_refl).
Defined.

Lemma at_most_nine_bars_witness :
  exists fig,
    script level ex_awards_i ex_awards ex_dems = inr fig /\
    Sorted Z.lt (fig_xticks fig) /\
    (forall c, In c (fig_xticks fig) -> 1 <= c <= 9) /\
    (List.length (fig_xticks fig) <= 9)%nat /\
    List.length (fig_bars fig) = (2 * List.length (fig_xticks fig))%nat.
Proof.
  eexists. split; [reflexivity|].
  exact (at_most_nine_bars level ex_awards_i ex_awards ex_dems _ eq_refl).
Defined.

Lemma figure_ignores_row_order_witness :
  Permutation ex_three_genders (rev ex_three_genders) /\
  visualization level ex_three_genders
  = visualization level (rev ex_three_genders).
Proof.
  split; [apply Permutation_rev|].
  apply (figure_ignores_row_order level ex_three_genders
           (rev ex_three_genders)).
  apply Permutation_rev.
Defined.


Lemma person_level_within_level_witness :
  dataset "role" ex_repeat_awards_i
    ex_in_range_awards ex_dems
  = inr [ Master.mk (Selected.mk "P1" "A0" 2012 (Some "advisor")) 3
            (Some "man");
          Master.mk (Selected.mk "P1" "A1" 2015 (Some "advisor")) 2
            (Some "man");
          Master.mk (Selected.mk "P2" "A1" 2015 (Some "advisor")) 2
            (Some "woman") ] /\
  exists df_person,
    dataset "person" ex_repeat_awards_i
      ex_in_range_awards ex_dems
    = inr df_person /\
    forall r, In r df_person ->
      In r [ Master.mk (Selected.mk "P1" "A0" 2012 (Some "advisor")) 3
               (Some "man");
             Master.mk (Selected.mk "P1" "A1" 2015 (Some "advisor")) 2
               (Some "man");
             Master.mk (Selected.mk "P2" "A1" 2015 (Some "advisor")) 2
               (Some "woman") ].
Proof.
  split; [reflexivity|].
  exact (person_level_within_level "role" ex_repeat_awards_i
           ex_in_range_awards ex_dems _ eq_refl).
Defined.
